(** * Ansible / IAM template generators: a shallow embedding

    The two generators of the repository, [generate-ansible-template.py] and
    [generate-iam-template.py], build nested Python dictionaries and lists and
    hand them to [yaml.dump].  The embedding keeps that shape: a generated
    document is a [value], a Python [dict] is an association list in insertion
    order, a subscript on a missing key raises [KeyError], and the interactive
    prompts are replaced by the data they return. *)

From Stdlib Require Import String List ZArith Bool Lia.
Import ListNotations.
Local Open Scope list_scope.
Local Open Scope string_scope.

(** ** Documents handed to [yaml.dump] *)

#[warnings="-register-all"]
Inductive value : Type :=
| VStr (s : string)
| VBool (b : bool)
| VInt (z : Z)
| VList (l : list value)
| VDict (d : list (string * value)).

(** A Python [dict] with string keys; the list order is insertion order. *)
Definition dict (V : Type) : Type := list (string * V).

Module Dict.

(** [d.get(k)] *)
Fixpoint get {V : Type} (d : dict V) (k : string) : option V :=
  match d with
  | [] => None
  | (k', v) :: t => if String.eqb k' k then Some v else get t k
  end.

(** [k in d] *)
Definition mem {V : Type} (d : dict V) (k : string) : bool :=
  match get d k with Some _ => true | None => false end.

(** [d[k] = v]: an existing key keeps its position, a new key goes last. *)
Fixpoint set {V : Type} (d : dict V) (k : string) (v : V) : dict V :=
  match d with
  | [] => [(k, v)]
  | (k', v') :: t =>
      if String.eqb k' k then (k', v) :: t else (k', v') :: set t k v
  end.

(** [d.keys()], [d.values()], [d.items()] is the list itself. *)
Definition keys {V : Type} (d : dict V) : list string := map fst d.
Definition values {V : Type} (d : dict V) : list V := map snd d.

End Dict.

(** ** Exceptions *)

Inductive exn : Type :=
| KeyError (key : string)
| IndexError.

Inductive result (A : Type) : Type :=
| Ok (a : A)
| Raise (e : exn).

Arguments Ok {A} a.
Arguments Raise {A} e.

Definition bind {A B : Type} (m : result A) (k : A -> result B) : result B :=
  match m with
  | Ok a => k a
  | Raise e => Raise e
  end.

Notation "x <- m ;; k" := (bind m (fun x => k))
  (at level 61, m at next level, right associativity).

(** [d[k]] on a key that may be missing. *)
Definition subscript {A : Type} (field : option A) (key : string) : result A :=
  match field with
  | Some a => Ok a
  | None => Raise (KeyError key)
  end.

(** [l[0]] *)
Definition first {A : Type} (l : list A) : result A :=
  match l with
  | a :: _ => Ok a
  | [] => Raise IndexError
  end.

(** A [for] loop whose body may raise. *)
Fixpoint for_each {A S : Type} (l : list A) (body : S -> A -> result S) (s : S)
  : result S :=
  match l with
  | [] => Ok s
  | a :: t => s' <- body s a ;; for_each t body s'
  end.

(** Truth value of [d.get(k)] for a string entry: present and not empty. *)
Definition truthy (field : option string) : bool :=
  match field with
  | Some EmptyString => false
  | Some _ => true
  | None => false
  end.

(** [d.get(k, default)] *)
Definition get_default {A : Type} (field : option A) (default : A) : A :=
  match field with
  | Some a => a
  | None => default
  end.

(** * generate-ansible-template.py *)

Module Ansible.

(** The [info['custom_repo']] dictionary of [get_user_input]. *)
Record CustomRepo : Type := mkCustomRepo {
  repo_url : string;
  package_name : option string;
  key_url : option string
}.

(** The [info] dictionary of [get_user_input]: one software install
    request.  A key the generator may leave out, or reads with [.get], is
    an [option]. *)
Record Software : Type := mkSoftware {
  name : string;
  install_method : option string;
  version : option string;
  custom_repo : option CustomRepo;
  script_url : option string;
  download_url : option string;
  install_path : option string
}.

(** The [server] dictionary of [get_user_input]. *)
Record Server : Type := mkServer {
  hostname : string;
  instance_id : string;
  region : string;
  os_type : string;
  os_family : string;
  bucket_name : string;
  software : list Software
}.

(** An entry of [software_groups[name]['servers']]. *)
Record ServerConfig : Type := mkServerConfig {
  server : Server;
  config : Software
}.

(** A value of the [software_groups] dictionary. *)
Record SoftwareGroup : Type := mkSoftwareGroup {
  configs : list Software;
  servers : list ServerConfig
}.

(** A generated step: a dictionary of the task file. *)
Definition task : Type := dict value.

(** Python's [==] on two [custom_repo] dictionaries. *)
Definition CustomRepo_eq_dec (a b : CustomRepo) : {a = b} + {a <> b}.
Proof.
  decide equality; try apply string_dec;
    decide equality; apply string_dec.
Defined.

(** Python's [==] on two [info] dictionaries, as [software not in ...]
    uses it: same keys, same values. *)
Definition Software_eq_dec (a b : Software) : {a = b} + {a <> b}.
Proof.
  decide equality; try apply string_dec;
    decide equality; try apply string_dec; apply CustomRepo_eq_dec.
Defined.

(** Lines 101-120 of [get_user_input]: one pass of the inner loop body. *)
Definition group_one (software_groups : dict SoftwareGroup)
    (srv : Server) (sw : Software) : dict SoftwareGroup :=
  let g := get_default (Dict.get software_groups (name sw))
                       (mkSoftwareGroup [] []) in
  let servers' := (servers g ++ [mkServerConfig srv sw])%list in
  let configs' :=
    if in_dec Software_eq_dec sw (configs g)
    then configs g
    else (configs g ++ [sw])%list in
  Dict.set software_groups (name sw) (mkSoftwareGroup configs' servers').

(** Lines 101-120 of [get_user_input]: the grouping of the collected
    servers, returned as [list(software_groups.values())]. *)
Definition group_software (all_servers : list Server) : list SoftwareGroup :=
  Dict.values
    (fold_left
       (fun software_groups srv =>
          fold_left (fun groups sw => group_one groups srv sw)
                    (software srv) software_groups)
       all_servers []).

(** [generate_inventory].  [children] is [inventory['all']['children']]
    with the [hosts] dictionary of each group as its value; the nesting
    under [all], [children] and [hosts] is put around it at the end. *)
Definition generate_inventory (software_groups : list SoftwareGroup)
  : result value :=
  children <-
    for_each software_groups
      (fun children software_group =>
         c <- first (configs software_group) ;;
         let group := name c ++ "_servers" in
         for_each (servers software_group)
           (fun children server_config =>
              let srv := server server_config in
              hosts <- subscript (Dict.get children group) group ;;
              Ok (Dict.set children group
                    (Dict.set hosts (hostname srv)
                       (VDict
                          [("ansible_connection", VStr "aws_ssm");
                           ("ansible_aws_ssm_instance_id",
                            VStr (instance_id srv));
                           ("ansible_aws_ssm_region", VStr (region srv))]))))
           (Dict.set children group []))
      [] ;;
  Ok (VDict
        [("all",
          VDict
            [("children",
              VDict (map (fun item =>
                            (fst item, VDict [("hosts", VDict (snd item))]))
                         children))])]).

(** [software.get('install_method', 'package')] *)
Definition method_of (sw : Software) : string :=
  get_default (install_method sw) "package".

(** [software.get('custom_repo', {}).get('package_name', software['name'])] *)
Definition resolved_package_name (sw : Software) : string :=
  match custom_repo sw with
  | Some cr => get_default (package_name cr) (name sw)
  | None => name sw
  end.

(** The guard string of [generate_os_specific_tasks]. *)
Definition family_guard (os_family : string) : string :=
  "ansible_os_family == '" ++ os_family ++ "'".

Definition generate_os_specific_tasks (sw : Software) (os_family : string)
  : result (list task) :=
  let method := method_of sw in
  let when := ("when", VStr (family_guard os_family)) in
  if method =? "package" then
    let repo_tasks :=
      match custom_repo sw with
      | Some cr =>
          app
          (if truthy (key_url cr)
           then [[("name", VStr ("Add GPG key for " ++ name sw));
                  ("rpm_key",
                   VDict [("key", VStr (get_default (key_url cr) EmptyString))]);
                  when]]
           else [])
             [[("name", VStr ("Add repository for " ++ name sw));
               ("yum_repository",
                VDict [("name", VStr (name sw ++ "-repo"));
                       ("description", VStr (name sw ++ " Repository"));
                       ("baseurl", VStr (repo_url cr));
                       ("enabled", VBool true);
                       ("gpgcheck", VBool (truthy (key_url cr)))]);
               when];
              [("name", VStr ("Update package cache for " ++ name sw));
               ("yum", VDict [("update_cache", VBool true)]);
               when]]
      | None => []
      end in
    Ok (app repo_tasks
           [[("name", VStr ("Install " ++ name sw ++ " on " ++ os_family));
             ("package",
              VDict [("name", VStr (resolved_package_name sw));
                     ("state", VStr "latest")]);
             when]])
  else if method =? "script" then
    url <- subscript (script_url sw) "script_url" ;;
    Ok [[("name",
          VStr ("Download script for " ++ name sw ++ " on " ++ os_family));
         ("get_url",
          VDict [("url", VStr url);
                 ("dest", VStr ("/tmp/" ++ name sw ++ ".sh"));
                 ("mode", VStr "0755")]);
         when];
        [("name", VStr ("Run script for " ++ name sw ++ " on " ++ os_family));
         ("shell", VStr ("/tmp/" ++ name sw ++ ".sh"));
         when]]
  else Ok [].

Definition generate_basic_tasks (sw : Software) : result (list task) :=
  let method := method_of sw in
  if method =? "package" then
    let repo_tasks :=
      match custom_repo sw with
      | Some cr =>
          app
          (if truthy (key_url cr)
           then [[("name", VStr ("Add GPG key for " ++ name sw));
                  ("rpm_key",
                   VDict [("key", VStr (get_default (key_url cr) EmptyString))])]]
           else [])
             [[("name", VStr ("Add repository for " ++ name sw));
               ("yum_repository",
                VDict [("name", VStr (name sw ++ "-repo"));
                       ("description", VStr (name sw ++ " Repository"));
                       ("baseurl", VStr (repo_url cr));
                       ("enabled", VBool true);
                       ("gpgcheck", VBool (truthy (key_url cr)))])];
              [("name", VStr ("Update package cache for " ++ name sw));
               ("yum", VDict [("update_cache", VBool true)])]]
      | None => []
      end in
    Ok (app repo_tasks
           [[("name", VStr ("Install " ++ name sw));
             ("package",
              VDict [("name", VStr (resolved_package_name sw));
                     ("state", VStr "latest")])]])
  else if method =? "snap" then
    Ok [[("name", VStr ("Install " ++ name sw ++ " via snap"));
         ("snap", VDict [("name", VStr (name sw))])]]
  else if method =? "script" then
    url <- subscript (script_url sw) "script_url" ;;
    Ok [[("name", VStr ("Download script for " ++ name sw));
         ("get_url",
          VDict [("url", VStr url);
                 ("dest", VStr ("/tmp/" ++ name sw ++ ".sh"));
                 ("mode", VStr "0755")])];
        [("name", VStr ("Run script for " ++ name sw));
         ("shell", VStr ("/tmp/" ++ name sw ++ ".sh"))]]
  else if method =? "manual" then
    path <- subscript (install_path sw) "install_path" ;;
    src <- subscript (download_url sw) "download_url" ;;
    Ok [[("name", VStr "Create install directory");
         ("file",
          VDict [("path", VStr path);
                 ("state", VStr "directory");
                 ("mode", VStr "0755")])];
        [("name", VStr "Download and extract");
         ("unarchive",
          VDict [("src", VStr src);
                 ("dest", VStr path);
                 ("remote_src", VBool true)])]]
  else Ok [].

(** The first loop of [generate_software_tasks]: the [os_configs]
    dictionary, family to configuration. *)
Definition os_configs_of (scs : list ServerConfig) : dict Software :=
  fold_left
    (fun os_configs sc =>
       let family := os_family (server sc) in
       if Dict.mem os_configs family
       then os_configs
       else Dict.set os_configs family (config sc))
    scs [].

Definition generate_software_tasks (software_group : SoftwareGroup)
  : result (list task) :=
  let os_configs := os_configs_of (servers software_group) in
  if (1 <? length os_configs)%nat then
    for_each os_configs
      (fun tasks item =>
         new <- generate_os_specific_tasks (snd item) (fst item) ;;
         Ok (tasks ++ new)%list)
      []
  else
    cfg <- first (Dict.values os_configs) ;;
    new <- generate_basic_tasks cfg ;;
    Ok ([] ++ new)%list.

End Ansible.

(** * generate-iam-template.py *)

Module Iam.

(** An entry of the [users] list of [get_user_input]. *)
Record User : Type := mkUser {
  username : string;
  expiration_days : Z;
  policy_name : string;
  password : string
}.

(** The four tasks the loop of [create_ansible_playbook] adds for a user. *)
Definition user_tasks (user : User) : list value :=
  let vault_var := "{{ vault_" ++ username user ++ "_password }}" in
  [VDict [("name", VStr ("Check if user " ++ username user ++ " exists"));
          ("amazon.aws.iam_user_info",
           VDict [("name", VStr (username user))]);
          ("register", VStr (username user ++ "_exists"));
          ("ignore_errors", VBool true)];
   VDict [("name", VStr ("Create IAM user " ++ username user));
          ("amazon.aws.iam_user",
           VDict [("name", VStr (username user));
                  ("password", VStr vault_var);
                  ("update_password", VStr "on_create");
                  ("state", VStr "present")]);
          ("when", VStr (username user ++ "_exists.failed"))];
   VDict [("name",
           VStr ("Update password for existing user " ++ username user));
          ("amazon.aws.iam_user",
           VDict [("name", VStr (username user));
                  ("password", VStr vault_var);
                  ("update_password", VStr "always");
                  ("state", VStr "present")]);
          ("when", VStr ("not " ++ username user ++ "_exists.failed"));
          ("ignore_errors", VBool true)];
   VDict [("name", VStr ("Attach policy to " ++ username user));
          ("amazon.aws.iam_user",
           VDict [("name", VStr (username user));
                  ("managed_policies",
                   VList [VStr ("arn:aws:iam::aws:policy/" ++ policy_name user)]);
                  ("state", VStr "present")])]].

(** The [password_policy_task] of [create_ansible_playbook]. *)
Definition password_policy_task (max_pw_age : Z) : value :=
  VDict [("name", VStr "Set account password policy");
         ("amazon.aws.iam_password_policy",
          VDict [("min_pw_length", VInt 12);
                 ("require_symbols", VBool true);
                 ("require_numbers", VBool true);
                 ("require_uppercase", VBool true);
                 ("require_lowercase", VBool true);
                 ("allow_pw_change", VBool true);
                 ("pw_max_age", VInt max_pw_age);
                 ("pw_reuse_prevent", VInt 3);
                 ("state", VStr "present")])].

Definition create_ansible_playbook (users : list User) (max_pw_age : Z)
  : value :=
  let tasks :=
    fold_left (fun tasks user => (tasks ++ user_tasks user)%list)
              users [password_policy_task max_pw_age] in
  VDict [("name", VStr "Create IAM Users with Password Expiration");
         ("hosts", VStr "localhost");
         ("gather_facts", VBool false);
         ("vars_files", VList [VStr "vault.yml"]);
         ("tasks", VList tasks)].

(** What a run does to the outside world, in order. *)
Inductive event : Type :=
| Print (line : string)
| WriteFile (path : string) (doc : value)
| Encrypt (src dst passphrase : string) (returncode : Z)
| Remove (path : string).

(** What [subprocess.Popen] on [ansible-vault] comes back with. *)
Inductive vault_outcome : Type :=
| ToolNotFound
| Exited (returncode : Z) (stderr : string).

(** The two external programs of a run. *)
Record Host : Type := mkHost {
  ansible_vault : vault_outcome;
  rm_found : bool
}.

(** The line feed of the [\n] escapes. *)
Definition newline : string := String (Ascii.ascii_of_nat 10) EmptyString.

Definition not_found_message : string :=
  "ansible-vault not found. Please install Ansible.".

(** [create_vault_file]: the returned flag and the events of the call. *)
Definition create_vault_file (users : list User) (vault_password : string)
    (host : Host) : bool * list event :=
  let vault_data :=
    fold_left
      (fun vault_data user =>
         Dict.set vault_data ("vault_" ++ username user ++ "_password")
                  (VStr (password user)))
      users [] in
  let opened := [WriteFile "temp_vault.yml" (VDict vault_data)] in
  match ansible_vault host with
  | ToolNotFound => (false, (opened ++ [Print not_found_message])%list)
  | Exited returncode stderr =>
      let ran :=
        (opened ++ [Encrypt "temp_vault.yml" "vault.yml" vault_password
                            returncode])%list in
      if negb (returncode =? 0)%Z then
        (false, (ran ++ [Print ("Error encrypting vault: " ++ stderr)])%list)
      else if rm_found host then
        (true, (ran ++ [Remove "temp_vault.yml"])%list)
      else
        (false, (ran ++ [Print not_found_message])%list)
  end.

(** [main] after [get_user_input] has returned [users] and [getpass] has
    returned [vault_password]. *)
Definition main (users : list User) (vault_password : string) (host : Host)
  : list event :=
  let banner :=
    [Print "IAM User Creation Script";
     Print "=============================="] in
  match users with
  | [] => (banner ++ [Print "No users to create. Exiting."])%list
  | first_user :: _ =>
      let asked := (banner ++ [Print (newline ++ "--- Vault Encryption ---")])%list in
      if (vault_password =? EmptyString)%string then
        (asked ++ [Print "Vault password cannot be empty!"])%list
      else
        let '(created, vault_events) :=
          create_vault_file users vault_password host in
        let tried :=
          (asked ++ Print "Creating encrypted vault file..." :: vault_events)%list in
        if negb created then
          (tried ++ [Print "Failed to create vault file. Exiting."])%list
        else
          let max_pw_age := expiration_days first_user in
          let playbook_data :=
            VList [create_ansible_playbook users max_pw_age] in
          (tried
           ++ [Print "Creating Ansible playbook...";
               WriteFile "create_iam_users.yml" playbook_data;
               Print (newline ++ "Files created successfully:");
               Print "- create_iam_users.yml (Ansible playbook)";
               Print "- vault.yml (Encrypted passwords)";
               Print (newline ++ "To run the playbook:");
               Print "ansible-playbook create_iam_users.yml --ask-vault-pass"])%list
  end.

End Iam.

(** * generate-ansible-template.py: prompts, playbook and files *)

Module AnsibleIO.
Import Ansible.

(** ** The console *)

(** What a computation that reads the console comes back with: a value and
    the lines not yet read, or the [EOFError] of [input()] at the end of the
    input.  [OutOfFuel] is the bound of the model on the number of loop
    passes, not an outcome of the program. *)
Inductive reply (A : Type) : Type :=
| Got (a : A) (rest : list string)
| EOFError
| OutOfFuel.

Arguments Got {A} a rest.
Arguments EOFError {A}.
Arguments OutOfFuel {A}.

(** A computation over the lines typed at the console; what the program
    prints while it asks is left out. *)
Definition prompt (A : Type) : Type := list string -> reply A.

Definition answer {A : Type} (a : A) : prompt A := fun lines => Got a lines.

Definition and_then {A B : Type} (m : prompt A) (k : A -> prompt B)
  : prompt B :=
  fun lines =>
    match m lines with
    | Got a rest => k a rest
    | EOFError => EOFError
    | OutOfFuel => OutOfFuel
    end.

Notation "x <~ m ;; k" := (and_then m (fun x => k))
  (at level 61, m at next level, right associativity).

(** [input(...)] *)
Definition input : prompt string :=
  fun lines =>
    match lines with
    | line :: rest => Got line rest
    | [] => EOFError
    end.

(** The table of [get_os_family]. *)
Definition os_family_map : dict string :=
  [("ubuntu", "Debian");
   ("debian", "Debian");
   ("centos", "RedHat");
   ("rhel", "RedHat");
   ("amazonlinux", "RedHat");
   ("fedora", "RedHat");
   ("windows", "Windows")].

Section Prompts.

(** [str.strip] and [str.lower] of the Python runtime. *)
Variables strip lower : string -> string.

Definition get_os_family (os_type : string) : string :=
  get_default (Dict.get os_family_map (lower os_type)) "Linux".

(** [input(...).strip()] *)
Definition input_strip : prompt string :=
  line <~ input ;; answer (strip line).

(** Lines 64-95 of [get_user_input]: the questions on one software, once
    its name is known, and the [info] dictionary they give. *)
Definition read_info (software : string) : prompt Software :=
  version <~ input_strip ;;
  method_answer <~ input_strip ;;
  let install_method :=
    if lower method_answer =? EmptyString
    then "package" else lower method_answer in
  let version_key :=
    if negb (version =? EmptyString) && negb (lower version =? "latest")
    then Some version else None in
  let info custom_repo script_url download_url install_path :=
    mkSoftware software (Some install_method) version_key
               custom_repo script_url download_url install_path in
  if install_method =? "package" then
    custom <~ input_strip ;;
    if lower custom =? "y" then
      repo_url <~ input_strip ;;
      key_url <~ input_strip ;;
      package_answer <~ input_strip ;;
      let package_name :=
        if package_answer =? EmptyString then software else package_answer in
      let key_url_key :=
        if key_url =? EmptyString then None else Some key_url in
      answer (info (Some (mkCustomRepo repo_url (Some package_name) key_url_key))
                   None None None)
    else answer (info None None None None)
  else if install_method =? "script" then
    script_url <~ input_strip ;;
    answer (info None (Some script_url) None None)
  else if install_method =? "manual" then
    download_url <~ input_strip ;;
    path_answer <~ input_strip ;;
    let install_path :=
      if path_answer =? EmptyString then "/opt/" ++ software else path_answer in
    answer (info None None (Some download_url) (Some install_path))
  else answer (info None None None None).

(** Lines 59-95 of [get_user_input]: the loop over the software of one
    server. *)
Fixpoint software_loop (fuel : nat) (collected : list Software)
  : prompt (list Software) :=
  match fuel with
  | O => fun _ => OutOfFuel
  | S fuel =>
      software <~ input_strip ;;
      if software =? EmptyString then answer collected
      else
        info <~ read_info software ;;
        software_loop fuel (collected ++ [info])%list
  end.

(** Lines 36-99 of [get_user_input]: the loop over the servers. *)
Fixpoint server_loop (fuel : nat) (bucket_name : string)
    (servers : list Server) : prompt (list Server) :=
  match fuel with
  | O => fun _ => OutOfFuel
  | S fuel =>
      hostname <~ input_strip ;;
      if hostname =? EmptyString then answer servers
      else
        instance_id <~ input_strip ;;
        region <~ input_strip ;;
        os_answer <~ input_strip ;;
        let os_type := lower os_answer in
        software <~ software_loop fuel [] ;;
        let server :=
          mkServer hostname instance_id region os_type
                   (get_os_family os_type) bucket_name software in
        another <~ input_strip ;;
        if negb (lower another =? "y")
        then answer (servers ++ [server])%list
        else server_loop fuel bucket_name (servers ++ [server])%list
  end.

(** [get_user_input]: [None] is the [(None, None)] of the missing bucket.
    Each loop pass reads a line, so the loops are given one pass more than
    there are lines. *)
Definition get_user_input
  : prompt (option (list Server * list SoftwareGroup)) :=
  fun lines =>
    (bucket_name <~ input_strip ;;
     if bucket_name =? EmptyString then answer None
     else
       servers <~ server_loop (S (length lines)) bucket_name [] ;;
       answer (Some (servers, group_software servers))) lines.

End Prompts.

(** ** The playbook *)

Definition generate_playbook (software_groups : list SoftwareGroup)
  : result (list value) :=
  for_each software_groups
    (fun plays group =>
       c <- first (configs group) ;;
       Ok (plays
           ++ [VDict
                 [("name", VStr ("Install " ++ name c));
                  ("hosts", VStr (name c ++ "_servers"));
                  ("become", VBool true);
                  ("tasks",
                   VList
                     [VDict
                        [("name", VStr ("Include " ++ name c ++ " tasks"));
                         ("include_tasks",
                          VStr ("tasks/" ++ name c ++ ".yml"))]])]])%list)
    [].

(** ** The files *)

(** What stops a run of [main]. *)
Inductive failure : Type :=
| Raised (e : exn)
| EndOfInput.

(** What [main] and [create_files] do to the outside world, in order: the
    lines they print themselves (not those of [get_user_input]), the
    directories they make and the documents they dump.  A path is the list of
    the operands joined with [/] to the base directory
    [Path.home() / "ansible-software-install"]; the file system is taken to
    accept every operation. *)
Inductive event : Type :=
| Print (line : string)
| PrintError (f : failure)
| MakeDir (path : list string)
| WriteFile (path : list string) (doc : value).

(** The loop of [create_files] over the groups: the events so far and how
    the loop ends. *)
Fixpoint write_task_files (software_groups : list SoftwareGroup)
    (log : list event) : list event * result unit :=
  match software_groups with
  | [] => (log, Ok tt)
  | group :: rest =>
      match generate_software_tasks group with
      | Raise e => (log, Raise e)
      | Ok tasks =>
          match first (configs group) with
          | Raise e => (log, Raise e)
          | Ok c =>
              write_task_files rest
                (log ++ [WriteFile ["tasks"; (name c ++ ".yml")%string]
                                 (VList (map VDict tasks))])%list
          end
      end
  end.

Definition success_message : string :=
  String (Ascii.ascii_of_nat 10) "Ansible project generated successfully!".

(** [create_files]: the events of the call and how it ends. *)
Definition create_files (servers : list Server)
    (software_groups : list SoftwareGroup) : list event * result unit :=
  let made := [MakeDir []; MakeDir ["tasks"]] in
  match generate_inventory software_groups with
  | Raise e => (made, Raise e)
  | Ok inventory =>
      let with_inventory :=
        (made ++ [WriteFile ["inventory.yml"] inventory])%list in
      match generate_playbook software_groups with
      | Raise e => (with_inventory, Raise e)
      | Ok playbook =>
          let with_playbook :=
            (with_inventory
             ++ [WriteFile ["install-software.yml"] (VList playbook)])%list in
          match write_task_files software_groups with_playbook with
          | (log, Ok _) => ((log ++ [Print success_message])%list, Ok tt)
          | (log, Raise e) => (log, Raise e)
          end
      end
  end.

(** [main] on the lines typed at the console, [str.strip] and [str.lower]
    given; [None] only when the bound on the loop passes is hit.  The
    [except Exception] branch prints the exception, [EOFError] of [input()]
    included; an interrupt is not part of the model. *)
Definition main (strip lower : string -> string) (lines : list string)
  : option (list event) :=
  match get_user_input strip lower lines with
  | OutOfFuel => None
  | EOFError => Some [PrintError EndOfInput]
  | Got None _ => Some [Print "Nothing to generate. Exiting."]
  | Got (Some (servers, software_groups)) _ =>
      match servers, software_groups with
      | [], _ | _, [] => Some [Print "Nothing to generate. Exiting."]
      | _, _ =>
          match create_files servers software_groups with
          | (log, Ok _) => Some log
          | (log, Raise e) => Some (log ++ [PrintError (Raised e)])%list
          end
      end
  end.

End AnsibleIO.

(** * Vocabulary of the properties *)

(** The entry [k] of a document that is a dictionary. *)
Definition field (v : value) (k : string) : option value :=
  match v with
  | VDict d => Dict.get d k
  | _ => None
  end.

Module Steps.
Import Ansible.

(** The steps of the task synthesizer, by what they do. *)
Definition add_signing_key (sw : Software) (key : string) : task :=
  [("name", VStr ("Add GPG key for " ++ name sw));
   ("rpm_key", VDict [("key", VStr key)])].

Definition add_repository (sw : Software) (baseurl : string) (gpgcheck : bool)
  : task :=
  [("name", VStr ("Add repository for " ++ name sw));
   ("yum_repository",
    VDict [("name", VStr (name sw ++ "-repo"));
           ("description", VStr (name sw ++ " Repository"));
           ("baseurl", VStr baseurl);
           ("enabled", VBool true);
           ("gpgcheck", VBool gpgcheck)])].

Definition update_package_cache (sw : Software) : task :=
  [("name", VStr ("Update package cache for " ++ name sw));
   ("yum", VDict [("update_cache", VBool true)])].

Definition install (title package : string) : task :=
  [("name", VStr title);
   ("package", VDict [("name", VStr package); ("state", VStr "latest")])].

Definition create_install_directory (path : string) : task :=
  [("name", VStr "Create install directory");
   ("file",
    VDict [("path", VStr path);
           ("state", VStr "directory");
           ("mode", VStr "0755")])].

Definition download_and_extract (src path : string) : task :=
  [("name", VStr "Download and extract");
   ("unarchive",
    VDict [("src", VStr src);
           ("dest", VStr path);
           ("remote_src", VBool true)])].

(** A step restricted to one OS family. *)
Definition guarded (os_family : string) (t : task) : task :=
  (t ++ [("when", VStr (family_guard os_family))])%list.

(** The step carries the guard of the family [os_family]. *)
Definition has_guard (os_family : string) (t : task) : Prop :=
  Dict.get t "when" = Some (VStr (family_guard os_family)).

(** The step carries no guard. *)
Definition unguarded (t : task) : Prop := Dict.get t "when" = None.

(** The install method is one of the four the prompt offers. *)
Definition recognized (method : string) : Prop :=
  method = "package" \/ method = "snap" \/ method = "script"
  \/ method = "manual".

(** Two specs that agree on every key but [version]. *)
Definition same_but_version (a b : Software) : Prop :=
  name a = name b /\ install_method a = install_method b
  /\ custom_repo a = custom_repo b /\ script_url a = script_url b
  /\ download_url a = download_url b /\ install_path a = install_path b.

(** Every [package] module call of the step asks for state [latest]. *)
Definition installs_latest (t : task) : Prop :=
  forall p, Dict.get t "package" = Some p ->
            field p "state" = Some (VStr "latest").

End Steps.

(** Every integer a document holds, left to right. *)
Fixpoint value_ints (v : value) : list Z :=
  match v with
  | VInt z => [z]
  | VList l => flat_map value_ints l
  | VDict d => flat_map (fun kv => value_ints (snd kv)) d
  | VStr _ | VBool _ => []
  end.

Module Runs.
Import Iam.

(** The orchestration entrypoint [main] writes last. *)
Definition entrypoint : string := "create_iam_users.yml".

(** The encryption tool is absent or exits with a non-zero code. *)
Definition encryption_failed (host : Host) : Prop :=
  match ansible_vault host with
  | ToolNotFound => True
  | Exited returncode _ => returncode <> 0%Z
  end.

(** The event by which the tool confirms that [vault.yml] was created. *)
Definition store_created (vault_password : string) : event :=
  Encrypt "temp_vault.yml" "vault.yml" vault_password 0.

(** Two user lists that agree on everything but [expiration_days]. *)
Definition same_but_expiration : list User -> list User -> Prop :=
  Forall2 (fun a b => username a = username b
                      /\ policy_name a = policy_name b
                      /\ password a = password b).

(** [pw_max_age] of a password-policy task. *)
Definition pw_max_age (policy_task : value) : option value :=
  match field policy_task "amazon.aws.iam_password_policy" with
  | Some module_args => field module_args "pw_max_age"
  | None => None
  end.

End Runs.

(** The list with every later copy of an element dropped: first-seen order
    without duplicates. *)
Fixpoint keep_first {A : Type} (eq_dec : forall a b : A, {a = b} + {a <> b})
    (l : list A) : list A :=
  match l with
  | [] => []
  | x :: t => x :: remove eq_dec x (keep_first eq_dec t)
  end.

Module Groups.
Import Ansible.

(** The OS family of the server of an association. *)
Definition family_of (sc : ServerConfig) : string := os_family (server sc).

(** The first association of a list whose server is of the family. *)
Definition first_of_family (family : string) (scs : list ServerConfig)
  : option ServerConfig :=
  find (fun sc => family_of sc =? family) scs.

(** The servers of the group are of exactly one OS family. *)
Definition single_family (g : SoftwareGroup) : Prop :=
  servers g <> []
  /\ forall a b, In a (servers g) -> In b (servers g) ->
                 family_of a = family_of b.

(** The servers of the group are of two OS families or more. *)
Definition several_families (g : SoftwareGroup) : Prop :=
  exists a b, In a (servers g) /\ In b (servers g)
              /\ family_of a <> family_of b.

(** The payload a method needs is there: the script URL of [script], the
    install path and download URL of [manual]. *)
Definition payload_consistent (sw : Software) : Prop :=
  (method_of sw = "script" -> script_url sw <> None)
  /\ (method_of sw = "manual" ->
      install_path sw <> None /\ download_url sw <> None).

(** Some server of the group is of a family whose guard the step has. *)
Definition guarded_for (g : SoftwareGroup) (t : task) : Prop :=
  exists sc, In sc (servers g) /\ Steps.has_guard (family_of sc) t.

(** The (server, spec) pairs of the input, in input order. *)
Definition requests (all_servers : list Server) : list (Server * Software) :=
  flat_map (fun srv => map (pair srv) (software srv)) all_servers.

(** The request is for the software of that name. *)
Definition named (n : string) (request : Server * Software) : bool :=
  name (snd request) =? n.

(** The group of a name: the distinct specs of its requests in first-seen
    order, and all its requests. *)
Definition group_named (n : string) (reqs : list (Server * Software))
  : SoftwareGroup :=
  mkSoftwareGroup
    (keep_first Software_eq_dec (map snd (filter (named n) reqs)))
    (map (fun request => mkServerConfig (fst request) (snd request))
         (filter (named n) reqs)).

(** The names requested, in first-seen order. *)
Definition names_requested (reqs : list (Server * Software)) : list string :=
  keep_first string_dec (map (fun request => name (snd request)) reqs).

(** The specs requested under a name, in input order. *)
Definition specs_named (n : string) (specs : list Software) : list Software :=
  filter (fun sw => name sw =? n) specs.

(** The host entry of a server in an inventory group. *)
Definition host_entry (srv : Server) : string * value :=
  (hostname srv,
   VDict [("ansible_connection", VStr "aws_ssm");
          ("ansible_aws_ssm_instance_id", VStr (instance_id srv));
          ("ansible_aws_ssm_region", VStr (region srv))]).

(** A [hosts] dictionary with the entry of the server of an association
    assigned. *)
Definition add_host (hosts : dict value) (sc : ServerConfig) : dict value :=
  Dict.set hosts (fst (host_entry (server sc))) (snd (host_entry (server sc))).

(** The members of the inventory group of a software group. *)
Definition hosts_of (g : SoftwareGroup) : dict value :=
  fold_left add_host (servers g) [].

(** The [hosts] of a group of an inventory. *)
Definition inventory_hosts (inventory : value) (group : string)
  : option value :=
  match field inventory "all" with
  | Some all =>
      match field all "children" with
      | Some children =>
          match field children group with
          | Some members => field members "hosts"
          | None => None
          end
      | None => None
      end
  | None => None
  end.

(** The grouping the spec describes: one group per name. *)
Definition grouping (reqs : list (Server * Software)) : dict SoftwareGroup :=
  map (fun n => (n, group_named n reqs)) (names_requested reqs).

End Groups.

(** * Vocabulary of the further properties *)

Module Calls.
Import Ansible.

(** A step without its [name] and its [when]: the module it calls, with the
    arguments. *)
Definition module_call (t : task) : task :=
  filter (fun entry => negb (fst entry =? "name") && negb (fst entry =? "when")) t.

(** The method has a branch in [generate_os_specific_tasks]. *)
Definition branched_per_family (method : string) : Prop :=
  method = "package" \/ method = "script".

End Calls.

Module GroupShape.
Import Ansible.

(** The name [generate_inventory], [generate_playbook] and [create_files]
    take for a group: that of its first configuration. *)
Definition first_name (g : SoftwareGroup) : option string :=
  match configs g with
  | c :: _ => Some (name c)
  | [] => None
  end.

(** Every configuration and every association of the group is for the
    software of that name. *)
Definition all_named (n : string) (g : SoftwareGroup) : Prop :=
  (forall c, In c (configs g) -> name c = n)
  /\ (forall sc, In sc (servers g) -> name (config sc) = n).

End GroupShape.

Module Files.
Import Ansible AnsibleIO GroupShape Groups.

(** The key of the inventory group of a software group. *)
Definition group_key (g : SoftwareGroup) : option string :=
  option_map (fun n => n ++ "_servers") (first_name g).

(** One pass of the outer loop of [generate_inventory] on a group that has
    a configuration: the group gets its key and its hosts. *)
Definition with_group (children : dict (dict value)) (g : SoftwareGroup)
  : dict (dict value) :=
  match group_key g with
  | Some key => Dict.set children key (hosts_of g)
  | None => children
  end.

(** The play [generate_playbook] makes for the software of a name. *)
Definition play_for (n : string) : value :=
  VDict [("name", VStr ("Install " ++ n));
         ("hosts", VStr (n ++ "_servers"));
         ("become", VBool true);
         ("tasks",
          VList [VDict [("name", VStr ("Include " ++ n ++ " tasks"));
                        ("include_tasks", VStr ("tasks/" ++ n ++ ".yml"))]])].

(** The plays of the groups that have a name. *)
Definition plays_of (gs : list SoftwareGroup) : list value :=
  flat_map (fun g => match first_name g with
                     | Some n => [play_for n]
                     | None => []
                     end) gs.

(** The hosts pattern of a play. *)
Definition play_hosts (play : value) : option string :=
  match field play "hosts" with
  | Some (VStr target) => Some target
  | _ => None
  end.



(** The write of the task file of a group, when the group has a name and
    its synthesis returns. *)
Definition task_file (g : SoftwareGroup) : list event :=
  match first_name g, generate_software_tasks g with
  | Some n, Ok tasks =>
      [WriteFile ["tasks"; n ++ ".yml"] (VList (map VDict tasks))]
  | _, _ => []
  end.

(** The event writes a file. *)
Definition is_write (e : event) : bool :=
  match e with
  | WriteFile _ _ => true
  | _ => false
  end.

End Files.

Module Console.
Import Ansible AnsibleIO Groups.

(** The four families [get_os_family] can give. *)
Definition os_families : list string := ["Debian"; "RedHat"; "Windows"; "Linux"].

(** What holds of an [info] dictionary built from the answers at the
    console: it has a name and a method, the payload of its method, no empty
    and no [latest] version, a custom repository only for [package], with a
    package name and without empty key URL, and no empty install path. *)
Definition well_formed_info (lower : string -> string) (sw : Software)
  : Prop :=
  name sw <> EmptyString
  /\ (exists method, install_method sw = Some method /\ method <> EmptyString)
  /\ payload_consistent sw
  /\ (forall v, version sw = Some v ->
        v <> EmptyString /\ lower v <> "latest")
  /\ (forall cr, custom_repo sw = Some cr ->
        method_of sw = "package"
        /\ (exists p, package_name cr = Some p /\ p <> EmptyString)
        /\ (forall key, key_url cr = Some key -> key <> EmptyString))
  /\ (forall path, install_path sw = Some path -> path <> EmptyString).

(** What holds of a [server] dictionary built from the answers at the
    console. *)
Definition well_formed_server (lower : string -> string) (bucket : string)
    (srv : Server) : Prop :=
  hostname srv <> EmptyString
  /\ bucket_name srv = bucket
  /\ os_family srv = get_os_family lower (os_type srv)
  /\ Forall (well_formed_info lower) (software srv).

(** The event makes a directory or writes a file. *)
Definition touches_disk (e : event) : Prop :=
  match e with
  | MakeDir _ | WriteFile _ _ => True
  | Print _ | PrintError _ => False
  end.

(** The message of [main] when there is nothing to do. *)
Definition nothing_to_generate : list event :=
  [Print "Nothing to generate. Exiting."].

End Console.

Module Vault.
Import Iam Runs.

(** The name of the vault variable of a user. *)
Definition vault_key (user : User) : string :=
  "vault_" ++ username user ++ "_password".

(** The event only prints. *)
Definition is_print (e : event) : Prop :=
  match e with
  | Print _ => True
  | _ => False
  end.

(** The [password] argument of a task of the playbook, when it has one. *)
Definition password_argument (task : value) : option value :=
  match field task "amazon.aws.iam_user" with
  | Some module_args => field module_args "password"
  | None => None
  end.

End Vault.

(** * Sample inputs *)

Module Samples.
Import Ansible.

Definition docker_key : string :=
  "https://download.docker.com/linux/centos/gpg".

Definition docker_repo : CustomRepo :=
  mkCustomRepo "https://download.docker.com/linux/centos/stable"
               (Some "docker-ce") (Some docker_key).

Definition docker : Software :=
  mkSoftware "docker" (Some "package") None (Some docker_repo) None None None.

Definition docker_24 : Software :=
  mkSoftware "docker" (Some "package") (Some "24.0") (Some docker_repo)
             None None None.

Definition nginx : Software :=
  mkSoftware "nginx" (Some "package") None None None None None.

(** A method the prompt does not offer. *)
Definition nginx_brew : Software :=
  mkSoftware "nginx" (Some "brew") None None None None None.

Definition tool : Software :=
  mkSoftware "tool" (Some "manual") None None None
             (Some "https://example.com/tool.tar.gz") (Some "/opt/tool").

Definition web1 : Server :=
  mkServer "web1" "i-0001" "us-east-1" "ubuntu" "Debian" "logs" [tool].

Definition web2 : Server :=
  mkServer "web2" "i-0002" "us-east-1" "centos" "RedHat" "logs" [tool].

(** The group of [tool] on two servers of different families. *)
Definition tool_group : SoftwareGroup :=
  mkSoftwareGroup [tool]
    [mkServerConfig web1 tool; mkServerConfig web2 tool].

Definition web3 : Server :=
  mkServer "web3" "i-0003" "eu-west-1" "debian" "Debian" "logs" [nginx].

Definition web4 : Server :=
  mkServer "web4" "i-0004" "eu-west-1" "ubuntu" "Debian" "logs" [docker].

Definition web5 : Server :=
  mkServer "web5" "i-0005" "eu-west-1" "rhel" "RedHat" "logs" [docker_24].

(** [nginx] on one server. *)
Definition nginx_group : SoftwareGroup :=
  mkSoftwareGroup [nginx] [mkServerConfig web3 nginx].

(** [docker] on a Debian and a RedHat server, then on a second Debian
    server that asks for another version. *)
Definition docker_group : SoftwareGroup :=
  mkSoftwareGroup [docker; docker_24]
    [mkServerConfig web4 docker; mkServerConfig web5 docker_24;
     mkServerConfig web3 docker_24].

(** Three servers that ask for [docker]: twice with the same spec, once
    with another version; the first asks for [nginx] as well. *)
Definition app1 : Server :=
  mkServer "app1" "i-0011" "us-east-1" "centos" "RedHat" "logs"
           [docker; nginx].

Definition app2 : Server :=
  mkServer "app2" "i-0012" "us-east-1" "centos" "RedHat" "logs" [docker_24].

Definition app3 : Server :=
  mkServer "app3" "i-0013" "us-west-2" "rhel" "RedHat" "logs" [docker].

End Samples.

Module IamSamples.
Import Iam.

Definition alice : User := mkUser "alice" 90 "ReadOnlyAccess" "Correct-Horse-1".
Definition bob : User := mkUser "bob" 30 "PowerUserAccess" "Battery-Staple-2".
Definition bob_365 : User := mkUser "bob" 365 "PowerUserAccess" "Battery-Staple-2".

(** [ansible-vault] and [rm] are installed and the encryption succeeds. *)
Definition host_ok : Host := mkHost (Exited 0 EmptyString) true.

(** [ansible-vault] exits with an error. *)
Definition host_vault_error : Host := mkHost (Exited 1 "ERROR! input is already encrypted") true.

End IamSamples.

(** * Further sample inputs *)

Module MoreSamples.
Import Ansible Samples.



Definition htop_snap : Software :=
  mkSoftware "htop" (Some "snap") None None None None None.


(** The answers of a session: one Ubuntu server that gets [nginx] from the
    package manager. *)
Definition nginx_session : list string :=
  ["logs"; "web1"; "i-0001"; "us-east-1"; "ubuntu";
   "nginx"; EmptyString; "package"; "n"; EmptyString; "n"].

(** The answers of a session that ends after the bucket and a server
    without software. *)
Definition idle_session : list string :=
  ["logs"; "web1"; "i-0001"; "us-east-1"; "ubuntu"; EmptyString; "n"].

(** A console that leaves the answers as they are. *)
Definition as_typed (s : string) : string := s.

End MoreSamples.

Module MoreIamSamples.
Import Iam IamSamples.

(** A second entry for the user name of [bob], with another password. *)
Definition bob_again : User :=
  mkUser "bob" 60 "ReadOnlyAccess" "Another-Pass-3".

(** [ansible-vault] succeeds and [rm] is not installed. *)
Definition host_without_rm : Host := mkHost (Exited 0 EmptyString) false.

(** [ansible-vault] is not installed. *)
Definition host_without_vault : Host := mkHost ToolNotFound true.

End MoreIamSamples.

(** * Facts on dictionaries and strings *)

Section DictFacts.
Context {V : Type}.
Implicit Types (d : dict V) (k : string) (v : V).

Lemma mem_true_iff d k : Dict.mem d k = true <-> In k (Dict.keys d).
Proof.
  unfold Dict.mem, Dict.keys.
  induction d as [| [k' v'] d IH]; cbn.
  - split; [discriminate | contradiction].
  - destruct (String.eqb_spec k' k) as [-> | Hne].
    + split; auto.
    + rewrite IH. split; [auto | intros [? | ?]; [contradiction | assumption]].
Qed.

Lemma mem_false_iff d k : Dict.mem d k = false <-> ~ In k (Dict.keys d).
Proof.
  rewrite <- mem_true_iff. destruct (Dict.mem d k); split; congruence.
Qed.

(** Assigning to a missing key appends the entry. *)
Lemma set_new d k v :
  ~ In k (Dict.keys d) -> Dict.set d k v = (d ++ [(k, v)])%list.
Proof.
  unfold Dict.keys. induction d as [| [k' v'] d IH]; cbn; intro Hnot.
  - reflexivity.
  - destruct (String.eqb_spec k' k) as [-> | Hne].
    + exfalso. auto.
    + rewrite IH; auto.
Qed.

(** Assigning never changes the order of the keys already there. *)
Lemma keys_set_old d k v :
  In k (Dict.keys d) -> Dict.keys (Dict.set d k v) = Dict.keys d.
Proof.
  unfold Dict.keys. induction d as [| [k' v'] d IH]; cbn; intro Hin.
  - contradiction.
  - destruct (String.eqb_spec k' k) as [-> | Hne]; cbn.
    + reflexivity.
    + rewrite IH; [reflexivity |]. destruct Hin; [contradiction | assumption].
Qed.

Lemma get_set_same d k v : Dict.get (Dict.set d k v) k = Some v.
Proof.
  induction d as [| [k' v'] d IH]; cbn.
  - now rewrite String.eqb_refl.
  - destruct (String.eqb_spec k' k) as [-> | Hne]; cbn.
    + now rewrite String.eqb_refl.
    + apply String.eqb_neq in Hne. now rewrite Hne.
Qed.

Lemma get_app d d' k :
  Dict.get (d ++ d')%list k
  = match Dict.get d k with Some v => Some v | None => Dict.get d' k end.
Proof.
  induction d as [| [k' v'] d IH]; cbn; [reflexivity |].
  destruct (k' =? k); [reflexivity | exact IH].
Qed.

Lemma set_set d k v v' : Dict.set (Dict.set d k v) k v' = Dict.set d k v'.
Proof.
  induction d as [| [k0 v0] d IH]; cbn.
  - now rewrite String.eqb_refl.
  - destruct (String.eqb_spec k0 k) as [-> | Hne]; cbn.
    + now rewrite String.eqb_refl.
    + apply String.eqb_neq in Hne. now rewrite Hne, IH.
Qed.

Lemma set_get_same d k v : Dict.get d k = Some v -> Dict.set d k v = d.
Proof.
  induction d as [| [k0 v0] d IH]; cbn; [discriminate |].
  destruct (String.eqb_spec k0 k) as [-> | Hne].
  - intro H. injection H as ->. reflexivity.
  - intro H. now rewrite IH.
Qed.

End DictFacts.

Section StringFacts.

Lemma length_append (a b : string) :
  String.length (a ++ b) = (String.length a + String.length b)%nat.
Proof. induction a as [| c a IH]; cbn; [reflexivity | now rewrite IH]. Qed.

(** Two names with the same suffix added are equal when the results are. *)
Lemma append_inv_tail (a b suffix : string) :
  a ++ suffix = b ++ suffix -> a = b.
Proof.
  revert b. induction a as [| c a IH]; intros [| c' b] Heq; cbn in Heq.
  - reflexivity.
  - apply (f_equal String.length) in Heq. cbn in Heq.
    rewrite length_append in Heq. lia.
  - apply (f_equal String.length) in Heq. cbn in Heq.
    rewrite length_append in Heq. lia.
  - injection Heq as -> Heq. f_equal. apply IH, Heq.
Qed.

End StringFacts.

(** * The task synthesizer, one spec at a time *)

Section Synthesizer.
Import Ansible Steps Samples.

Lemma truthy_some (k : string) :
  k <> EmptyString -> truthy (Some k) = true.
Proof. destruct k; [congruence | reflexivity]. Qed.

(** Rewrites the method of a spec to the literal it is known to be. *)
Ltac known_method H :=
  unfold generate_basic_tasks, generate_os_specific_tasks;
  rewrite H; cbn [String.eqb Ascii.eqb Bool.eqb].

(** Splits on the tests the two generators make on the method. *)
Ltac by_method sw :=
  unfold generate_basic_tasks, generate_os_specific_tasks;
  destruct (method_of sw =? "package") eqn:Hpackage;
  [| destruct (method_of sw =? "snap") eqn:Hsnap;
     [| destruct (method_of sw =? "script") eqn:Hscript;
        [| destruct (method_of sw =? "manual") eqn:Hmanual]]].

(** C1.  A [package] spec with a custom repository: when a signing-key URL
    was given, both modes produce exactly add-signing-key, add-repository
    (named [<software>-repo], GPG check on), update-package-cache and
    install (resolved package name, state [latest]), in that order; when
    none was given, the add-repository step has the GPG check off. *)
Theorem package_custom_repo_step_order (sw : Software) (cr : CustomRepo) :
  method_of sw = "package" ->
  custom_repo sw = Some cr ->
  (forall key, key_url cr = Some key -> key <> EmptyString ->
     generate_basic_tasks sw =
       Ok [add_signing_key sw key;
           add_repository sw (repo_url cr) true;
           update_package_cache sw;
           install ("Install " ++ name sw) (resolved_package_name sw)]
     /\ forall family,
         generate_os_specific_tasks sw family =
           Ok [guarded family (add_signing_key sw key);
               guarded family (add_repository sw (repo_url cr) true);
               guarded family (update_package_cache sw);
               guarded family
                 (install ("Install " ++ name sw ++ " on " ++ family)
                          (resolved_package_name sw))])
  /\ (truthy (key_url cr) = false ->
      generate_basic_tasks sw =
        Ok [add_repository sw (repo_url cr) false;
            update_package_cache sw;
            install ("Install " ++ name sw) (resolved_package_name sw)]
      /\ forall family,
          generate_os_specific_tasks sw family =
            Ok [guarded family (add_repository sw (repo_url cr) false);
                guarded family (update_package_cache sw);
                guarded family
                  (install ("Install " ++ name sw ++ " on " ++ family)
                           (resolved_package_name sw))]).
Proof.
  intros Hmethod Hrepo. split.
  - intros key Hkey Hne.
    pose proof (truthy_some key Hne) as Ht.
    split; [| intro family]; known_method Hmethod;
      rewrite Hrepo, Hkey, Ht; reflexivity.
  - intro Ht.
    split; [| intro family]; known_method Hmethod;
      rewrite Hrepo, Ht; reflexivity.
Qed.

Lemma package_custom_repo_step_order_witness :
  generate_basic_tasks docker =
    Ok [add_signing_key docker docker_key;
        add_repository docker
          "https://download.docker.com/linux/centos/stable" true;
        update_package_cache docker;
        install "Install docker" "docker-ce"].
Proof.
  destruct (package_custom_repo_step_order docker docker_repo
              eq_refl eq_refl) as [Hkey _].
  destruct (Hkey docker_key eq_refl) as [Hbasic _];
    [discriminate | exact Hbasic].
Defined.

(** In unconditional mode a [manual] spec gives the create-directory step
    and then the extract step, both at the configured install path. *)
Lemma manual_basic_steps (sw : Software) (path src : string) :
  method_of sw = "manual" ->
  install_path sw = Some path ->
  download_url sw = Some src ->
  generate_basic_tasks sw =
    Ok [create_install_directory path; download_and_extract src path].
Proof.
  intros Hmethod Hpath Hsrc. known_method Hmethod.
  rewrite Hpath, Hsrc. reflexivity.
Qed.

(** In conditional mode a [manual] spec gives no step at all:
    [generate_os_specific_tasks] has no branch for the method. *)
Lemma manual_os_specific_steps (sw : Software) (family : string) :
  method_of sw = "manual" ->
  generate_os_specific_tasks sw family = Ok [].
Proof. intros Hmethod. known_method Hmethod. reflexivity. Qed.

(** C3.  The [manual] spec [tool], requested on a Debian and on a RedHat
    server, is synthesized in conditional mode, and its task file is empty:
    neither the create-directory nor the extract step is produced, while
    the same spec alone gives both. *)
Theorem manual_steps_lost_in_conditional_mode :
  generate_software_tasks tool_group = Ok []
  /\ generate_os_specific_tasks tool "Debian" = Ok []
  /\ generate_basic_tasks tool =
       Ok [create_install_directory "/opt/tool";
           download_and_extract "https://example.com/tool.tar.gz" "/opt/tool"].
Proof. repeat split. Qed.

(** C7.  A spec whose method is none of [package], [snap], [script],
    [manual] gives the empty step sequence in both modes, and the call
    returns normally. *)
Theorem unrecognized_method_no_steps (sw : Software) :
  ~ recognized (method_of sw) ->
  generate_basic_tasks sw = Ok []
  /\ forall family, generate_os_specific_tasks sw family = Ok [].
Proof.
  intro Hnot. unfold recognized in Hnot.
  split; [| intro family]; by_method sw;
    try (apply String.eqb_eq in Hpackage; tauto);
    try (apply String.eqb_eq in Hsnap; tauto);
    try (apply String.eqb_eq in Hscript; tauto);
    try (apply String.eqb_eq in Hmanual; tauto);
    reflexivity.
Qed.

Lemma unrecognized_method_no_steps_witness :
  generate_basic_tasks nginx_brew = Ok []
  /\ forall family, generate_os_specific_tasks nginx_brew family = Ok [].
Proof.
  apply (unrecognized_method_no_steps nginx_brew).
  unfold recognized. cbn.
  intros [H | [H | [H | H]]]; discriminate H.
Defined.

(** Every step either generator can return installs packages at state
    [latest]. *)
Lemma basic_tasks_install_latest (sw : Software) (tasks : list task) :
  generate_basic_tasks sw = Ok tasks -> Forall installs_latest tasks.
Proof.
  by_method sw;
    try destruct (custom_repo sw) as [cr |];
    try destruct (truthy (key_url cr));
    try destruct (script_url sw);
    try destruct (install_path sw);
    try destruct (download_url sw);
    cbn; intro H; try discriminate H; injection H as <-;
    repeat constructor; intros p Hp; cbn in Hp;
    try discriminate Hp; injection Hp as <-; reflexivity.
Qed.

Lemma os_specific_tasks_install_latest
    (sw : Software) (family : string) (tasks : list task) :
  generate_os_specific_tasks sw family = Ok tasks ->
  Forall installs_latest tasks.
Proof.
  unfold generate_os_specific_tasks.
  destruct (method_of sw =? "package");
    [| destruct (method_of sw =? "script")];
    try destruct (custom_repo sw) as [cr |];
    try destruct (truthy (key_url cr));
    try destruct (script_url sw);
    cbn; intro H; try discriminate H; injection H as <-;
    repeat constructor; intros p Hp; cbn in Hp;
    try discriminate Hp; injection Hp as <-; reflexivity.
Qed.

(** C9.  Two specs that differ only in [version] are synthesized into the
    same step sequence in both modes, and every install step of a package
    asks for state [latest]. *)
Theorem version_never_influences_steps (a b : Software) :
  same_but_version a b ->
  generate_basic_tasks a = generate_basic_tasks b
  /\ (forall family,
        generate_os_specific_tasks a family
        = generate_os_specific_tasks b family)
  /\ (forall tasks,
        generate_basic_tasks a = Ok tasks -> Forall installs_latest tasks)
  /\ (forall family tasks,
        generate_os_specific_tasks a family = Ok tasks ->
        Forall installs_latest tasks).
Proof.
  intros (Hname & Hmethod & Hrepo & Hscript & Hsrc & Hpath).
  split; [| split; [| split]].
  - unfold generate_basic_tasks, method_of, resolved_package_name.
    rewrite Hname, Hmethod, Hrepo, Hscript, Hsrc, Hpath. reflexivity.
  - intro family.
    unfold generate_os_specific_tasks, method_of, resolved_package_name.
    rewrite Hname, Hmethod, Hrepo, Hscript. reflexivity.
  - apply basic_tasks_install_latest.
  - apply os_specific_tasks_install_latest.
Qed.

Lemma version_never_influences_steps_witness :
  generate_basic_tasks docker = generate_basic_tasks docker_24
  /\ (forall family,
        generate_os_specific_tasks docker family
        = generate_os_specific_tasks docker_24 family).
Proof.
  destruct (version_never_influences_steps docker docker_24)
    as (Hbasic & Hfamily & _).
  - repeat split.
  - exact (conj Hbasic Hfamily).
Defined.

(** Unconditional mode puts no guard on a step. *)
Lemma basic_tasks_unguarded (sw : Software) (tasks : list task) :
  generate_basic_tasks sw = Ok tasks -> Forall unguarded tasks.
Proof.
  by_method sw;
    try destruct (custom_repo sw) as [cr |];
    try destruct (truthy (key_url cr));
    try destruct (script_url sw);
    try destruct (install_path sw);
    try destruct (download_url sw);
    cbn; intro H; try discriminate H; injection H as <-;
    repeat constructor.
Qed.

(** Conditional mode puts the guard of its family on every step. *)
Lemma os_specific_tasks_guarded
    (sw : Software) (family : string) (tasks : list task) :
  generate_os_specific_tasks sw family = Ok tasks ->
  Forall (has_guard family) tasks.
Proof.
  unfold generate_os_specific_tasks.
  destruct (method_of sw =? "package");
    [| destruct (method_of sw =? "script")];
    try destruct (custom_repo sw) as [cr |];
    try destruct (truthy (key_url cr));
    try destruct (script_url sw);
    cbn; intro H; try discriminate H; injection H as <-;
    repeat constructor.
Qed.

(** With its payload there, a spec is synthesized without an exception. *)
Lemma basic_tasks_total (sw : Software) :
  Groups.payload_consistent sw -> exists tasks, generate_basic_tasks sw = Ok tasks.
Proof.
  intros [Hscript' Hmanual'].
  by_method sw; try (eexists; reflexivity).
  - apply String.eqb_eq in Hscript.
    destruct (script_url sw); [eexists; reflexivity |].
    now destruct (Hscript' Hscript).
  - apply String.eqb_eq in Hmanual.
    destruct (Hmanual' Hmanual) as [Hpath Hsrc].
    destruct (install_path sw); [| congruence].
    destruct (download_url sw); [| congruence].
    eexists; reflexivity.
Qed.

Lemma os_specific_tasks_total (sw : Software) (family : string) :
  Groups.payload_consistent sw ->
  exists tasks, generate_os_specific_tasks sw family = Ok tasks.
Proof.
  intros [Hscript' _]. unfold generate_os_specific_tasks.
  destruct (method_of sw =? "package"); [eexists; reflexivity |].
  destruct (method_of sw =? "script") eqn:Hscript; [| eexists; reflexivity].
  apply String.eqb_eq in Hscript.
  destruct (script_url sw); [eexists; reflexivity |].
  now destruct (Hscript' Hscript).
Qed.

End Synthesizer.

(** * The task set of a group *)

Section FamilyTaskSet.
Import Ansible Steps Groups Samples.

Lemma find_app {A : Type} (p : A -> bool) (l l' : list A) :
  find p (l ++ l')%list
  = match find p l with Some a => Some a | None => find p l' end.
Proof.
  induction l as [| a l IH]; cbn; [reflexivity |].
  destruct (p a); [reflexivity | exact IH].
Qed.

(** One more association: the family is added only when it is new. *)
Lemma os_configs_snoc (scs : list ServerConfig) (sc : ServerConfig) :
  os_configs_of (scs ++ [sc])%list
  = if Dict.mem (os_configs_of scs) (family_of sc)
    then os_configs_of scs
    else (os_configs_of scs ++ [(family_of sc, config sc)])%list.
Proof.
  unfold os_configs_of, family_of. rewrite fold_left_app. cbn [fold_left].
  match goal with |- context [Dict.mem ?d ?k] =>
    destruct (Dict.mem d k) eqn:Hmem; [reflexivity |]
  end.
  apply set_new. apply mem_false_iff. exact Hmem.
Qed.

Lemma os_configs_keys (scs : list ServerConfig) (family : string) :
  In family (Dict.keys (os_configs_of scs))
  <-> In family (map family_of scs).
Proof.
  induction scs as [| sc scs IH] using rev_ind; [reflexivity |].
  rewrite os_configs_snoc, map_app, in_app_iff. cbn [map In].
  destruct (Dict.mem (os_configs_of scs) (family_of sc)) eqn:Hmem.
  - apply mem_true_iff in Hmem. rewrite IH in *.
    intuition (subst; auto).
  - unfold Dict.keys in *. rewrite map_app, in_app_iff. cbn [map In fst].
    rewrite IH. reflexivity.
Qed.

Lemma os_configs_nodup (scs : list ServerConfig) :
  NoDup (Dict.keys (os_configs_of scs)).
Proof.
  induction scs as [| sc scs IH] using rev_ind; [constructor |].
  rewrite os_configs_snoc.
  destruct (Dict.mem (os_configs_of scs) (family_of sc)) eqn:Hmem;
    [exact IH |].
  apply mem_false_iff in Hmem.
  unfold Dict.keys in *. rewrite map_app. cbn [map fst].
  apply NoDup_app; [exact IH | repeat constructor; auto |].
  intros family Hin [<- | []]. contradiction.
Qed.

Lemma os_configs_get (scs : list ServerConfig) (family : string) :
  Dict.get (os_configs_of scs) family
  = option_map config (first_of_family family scs).
Proof.
  unfold first_of_family.
  induction scs as [| sc scs IH] using rev_ind; [reflexivity |].
  rewrite os_configs_snoc, find_app. cbn [find].
  destruct (Dict.mem (os_configs_of scs) (family_of sc)) eqn:Hmem.
  - rewrite IH.
    destruct (find _ scs) as [first |] eqn:Hfind; [reflexivity |].
    destruct (String.eqb_spec (family_of sc) family) as [<- | Hne];
      [| reflexivity].
    unfold Dict.mem in Hmem. rewrite IH in Hmem. discriminate Hmem.
  - rewrite get_app, IH. cbn [Dict.get].
    destruct (find _ scs); [reflexivity |].
    destruct (family_of sc =? family); reflexivity.
Qed.

(** An association of a family already seen leaves the task set as it is. *)
Lemma os_configs_skip (earlier later : list ServerConfig)
    (sc : ServerConfig) :
  In (family_of sc) (map family_of earlier) ->
  os_configs_of (earlier ++ sc :: later)%list
  = os_configs_of (earlier ++ later)%list.
Proof.
  intro Hseen. apply os_configs_keys, mem_true_iff in Hseen.
  unfold os_configs_of, family_of in *.
  rewrite !fold_left_app. cbn [fold_left]. rewrite Hseen. reflexivity.
Qed.

(** C4.  The task set of a group has each OS family at most once, holds
    for a family the configuration of the first association of that
    family, and is the same with or without a later server of a family
    already seen, whatever that server's configuration. *)
Theorem os_family_task_set_first_seen (g : SoftwareGroup) :
  NoDup (Dict.keys (os_configs_of (servers g)))
  /\ (forall family,
        Dict.get (os_configs_of (servers g)) family
        = option_map config (first_of_family family (servers g)))
  /\ (forall earlier sc later,
        servers g = (earlier ++ sc :: later)%list ->
        In (family_of sc) (map family_of earlier) ->
        os_configs_of (servers g) = os_configs_of (earlier ++ later)%list).
Proof.
  split; [apply os_configs_nodup | split; [apply os_configs_get |]].
  intros earlier sc later -> Hseen. apply os_configs_skip. exact Hseen.
Qed.

Lemma os_family_task_set_first_seen_witness :
  os_configs_of (servers docker_group)
  = os_configs_of [mkServerConfig web4 docker; mkServerConfig web5 docker_24].
Proof.
  destruct (os_family_task_set_first_seen docker_group) as (_ & _ & Hskip).
  apply (Hskip [mkServerConfig web4 docker; mkServerConfig web5 docker_24]
               (mkServerConfig web3 docker_24) []).
  - reflexivity.
  - cbn. auto.
Defined.

(** An entry of the task set comes from a server of the group. *)
Lemma os_configs_entry (scs : list ServerConfig)
    (family : string) (cfg : Software) :
  In (family, cfg) (os_configs_of scs) ->
  exists sc, In sc scs /\ family_of sc = family /\ config sc = cfg.
Proof.
  induction scs as [| sc scs IH] using rev_ind; [contradiction |].
  rewrite os_configs_snoc.
  destruct (Dict.mem (os_configs_of scs) (family_of sc)).
  - intro Hin. destruct (IH Hin) as (sc' & Hin' & Hfam & Hcfg).
    exists sc'. rewrite in_app_iff. auto.
  - rewrite in_app_iff. intros [Hin | [Heq | []]].
    + destruct (IH Hin) as (sc' & Hin' & Hfam & Hcfg).
      exists sc'. rewrite in_app_iff. auto.
    + injection Heq as <- <-. exists sc. rewrite in_app_iff. cbn. auto.
Qed.

(** One family: the task set has one entry. *)
Lemma single_family_one_entry (g : SoftwareGroup) :
  single_family g ->
  exists sc, In sc (servers g)
             /\ os_configs_of (servers g) = [(family_of sc, config sc)].
Proof.
  intros [Hsome Hsame].
  pose proof (os_configs_nodup (servers g)) as Hnodup.
  pose proof (os_configs_keys (servers g)) as Hkeys.
  pose proof (os_configs_entry (servers g)) as Hentry.
  destruct (os_configs_of (servers g)) as [| [k v] [| [k' v'] rest]].
  - destruct (servers g) as [| sc scs]; [congruence |].
    destruct (proj2 (Hkeys (family_of sc))); cbn; auto.
  - destruct (Hentry k v) as (sc & Hin & <- & <-); [cbn; auto |].
    exists sc. auto.
  - exfalso.
    destruct (Hentry k v) as (a & Ha & <- & _); [cbn; auto |].
    destruct (Hentry k' v') as (b & Hb & <- & _); [cbn; auto |].
    cbn in Hnodup. inversion Hnodup as [| ? ? Hnot _]. apply Hnot.
    left. symmetry. apply Hsame; assumption.
Qed.

(** Two families: the task set has two entries or more. *)
Lemma several_families_entries (g : SoftwareGroup) :
  several_families g ->
  (1 <? length (os_configs_of (servers g)))%nat = true.
Proof.
  intros (a & b & Ha & Hb & Hdiff).
  pose proof (os_configs_keys (servers g)) as Hkeys.
  assert (Hka : In (family_of a) (Dict.keys (os_configs_of (servers g))))
    by (apply Hkeys, in_map, Ha).
  assert (Hkb : In (family_of b) (Dict.keys (os_configs_of (servers g))))
    by (apply Hkeys, in_map, Hb).
  destruct (os_configs_of (servers g)) as [| [k v] [| [k' v'] rest]];
    cbn in *; [contradiction | | reflexivity].
  destruct Hka as [Hka | []], Hkb as [Hkb | []]. congruence.
Qed.

(** The loop of conditional mode keeps a property of the steps that each
    family's steps have. *)
Lemma conditional_loop_keeps (P : task -> Prop)
    (items : dict Software) (acc tasks : list task) :
  (forall family cfg new,
      In (family, cfg) items ->
      generate_os_specific_tasks cfg family = Ok new -> Forall P new) ->
  Forall P acc ->
  for_each items
    (fun tasks item =>
       new <- generate_os_specific_tasks (snd item) (fst item) ;;
       Ok (tasks ++ new)%list)
    acc = Ok tasks ->
  Forall P tasks.
Proof.
  revert acc. induction items as [| [family cfg] items IH];
    intros acc Hbody Hacc; cbn.
  - intro H. injection H as <-. exact Hacc.
  - destruct (generate_os_specific_tasks cfg family) as [new | e] eqn:Hnew;
      cbn; [| discriminate].
    apply IH.
    + intros f c n Hin. apply Hbody. right. exact Hin.
    + apply Forall_app. split; [exact Hacc |].
      apply (Hbody family cfg); [left; reflexivity | exact Hnew].
Qed.

Lemma conditional_loop_total (items : dict Software) (acc : list task) :
  Forall (fun item => payload_consistent (snd item)) items ->
  exists tasks,
    for_each items
      (fun tasks item =>
         new <- generate_os_specific_tasks (snd item) (fst item) ;;
         Ok (tasks ++ new)%list)
      acc = Ok tasks.
Proof.
  revert acc. induction items as [| [family cfg] items IH];
    intros acc Hall; cbn.
  - eexists; reflexivity.
  - inversion Hall as [| ? ? Hcfg Hrest]; subst.
    destruct (os_specific_tasks_total cfg family Hcfg) as [new ->]. cbn.
    apply IH. exact Hrest.
Qed.

(** C2.  A group whose servers are of one OS family is synthesized into
    steps without a [when] guard; a group whose servers are of two families
    or more is synthesized into steps that each carry the guard of the
    family of one of its servers.  In both cases the synthesis returns a
    step sequence when each configuration has the payload of its method. *)
Theorem guards_iff_several_families (g : SoftwareGroup) :
  (single_family g ->
     (forall tasks,
         generate_software_tasks g = Ok tasks -> Forall unguarded tasks)
     /\ (Forall payload_consistent (map config (servers g)) ->
         exists tasks, generate_software_tasks g = Ok tasks))
  /\ (several_families g ->
     (forall tasks,
         generate_software_tasks g = Ok tasks ->
         Forall (guarded_for g) tasks)
     /\ (Forall payload_consistent (map config (servers g)) ->
         exists tasks, generate_software_tasks g = Ok tasks)).
Proof.
  unfold generate_software_tasks. split.
  - intro Hsingle.
    destruct (single_family_one_entry g Hsingle) as (sc & Hin & ->).
    cbn. split.
    + intros tasks.
      destruct (generate_basic_tasks (config sc)) as [new | e] eqn:Hnew;
        cbn; [| discriminate].
      intro H. injection H as <-.
      apply (basic_tasks_unguarded _ _ Hnew).
    + intro Hall. rewrite Forall_forall in Hall.
      destruct (basic_tasks_total (config sc)) as [new ->].
      * apply Hall, in_map, Hin.
      * cbn. eexists; reflexivity.
  - intro Hseveral. rewrite (several_families_entries g Hseveral). split.
    + intro tasks. apply conditional_loop_keeps; [| constructor].
      intros family cfg new Hentry Hnew.
      destruct (os_configs_entry _ _ _ Hentry) as (sc & Hin & <- & <-).
      apply os_specific_tasks_guarded in Hnew.
      apply (Forall_impl _ (P := has_guard (family_of sc)));
        [| exact Hnew].
      intros t Ht. exists sc. auto.
    + intro Hall. apply conditional_loop_total.
      rewrite Forall_forall in *. intros [family cfg] Hentry.
      destruct (os_configs_entry _ _ _ Hentry) as (sc & Hin & _ & <-).
      cbn [snd]. apply Hall, in_map, Hin.
Qed.

Lemma guards_iff_several_families_witness :
  (exists tasks,
      generate_software_tasks nginx_group = Ok tasks
      /\ Forall unguarded tasks)
  /\ (exists tasks,
        generate_software_tasks docker_group = Ok tasks
        /\ Forall (guarded_for docker_group) tasks).
Proof.
  destruct (guards_iff_several_families nginx_group) as [Hone _].
  destruct (guards_iff_several_families docker_group) as [_ Htwo].
  assert (Hpayload : forall sw,
             method_of sw = "package" -> payload_consistent sw)
    by (intros sw Hmethod; split; rewrite Hmethod; discriminate).
  split.
  - destruct Hone as [Hsteps Hreturns].
    + split; [discriminate |].
      intros a b [<- | []] [<- | []]. reflexivity.
    + destruct Hreturns as [tasks Htasks];
        [repeat constructor; now apply Hpayload |].
      exists tasks. auto.
  - destruct Htwo as [Hsteps Hreturns].
    + exists (mkServerConfig web4 docker), (mkServerConfig web5 docker_24).
      cbn. repeat split; auto. discriminate.
    + destruct Hreturns as [tasks Htasks];
        [repeat constructor; now apply Hpayload |].
      exists tasks. auto.
Defined.

End FamilyTaskSet.

(** * The grouping engine *)

Section KeepFirst.
Context {A : Type} (eq_dec : forall a b : A, {a = b} + {a <> b}).

Lemma keep_first_in (l : list A) (x : A) :
  In x (keep_first eq_dec l) <-> In x l.
Proof.
  induction l as [| a l IH]; cbn; [reflexivity |].
  split.
  - intros [-> | Hin]; [auto |].
    apply in_remove in Hin. right. apply IH, Hin.
  - intros [-> | Hin]; [auto |].
    destruct (eq_dec a x) as [-> | Hne]; [auto |].
    right. apply in_in_remove; [congruence | apply IH, Hin].
Qed.

Lemma remove_nodup (l : list A) (a : A) :
  NoDup l -> NoDup (remove eq_dec a l).
Proof.
  induction 1 as [| x l Hnot _ IH]; cbn; [constructor |].
  destruct (eq_dec a x); [exact IH |].
  constructor; [| exact IH].
  intro Hin. apply in_remove in Hin. tauto.
Qed.

Lemma keep_first_nodup (l : list A) : NoDup (keep_first eq_dec l).
Proof.
  induction l as [| a l IH]; cbn; constructor.
  - apply remove_In.
  - apply remove_nodup, IH.
Qed.

(** One more element at the end is kept only when it is new. *)
Lemma keep_first_snoc (l : list A) (x : A) :
  keep_first eq_dec (l ++ [x])%list
  = if in_dec eq_dec x l
    then keep_first eq_dec l
    else (keep_first eq_dec l ++ [x])%list.
Proof.
  induction l as [| a l IH]; cbn [keep_first app].
  - destruct (in_dec eq_dec x []); [contradiction | reflexivity].
  - rewrite IH.
    destruct (in_dec eq_dec x l) as [Hin | Hnot];
      destruct (in_dec eq_dec x (a :: l)) as [Hin' | Hnot'];
      try reflexivity.
    + exfalso. apply Hnot'. right. exact Hin.
    + rewrite remove_app. cbn [remove].
      destruct (eq_dec a x) as [-> | Hne]; [now rewrite app_nil_r |].
      destruct Hin' as [-> | Hin']; contradiction.
    + rewrite remove_app. cbn [remove].
      destruct (eq_dec a x) as [-> | Hne]; [| reflexivity].
      exfalso. apply Hnot'. left. reflexivity.
Qed.

End KeepFirst.

Section Tabulated.
Context {V : Type}.

(** A dictionary given by its keys and a value for each. *)
Lemma get_tabulate (ks : list string) (f : string -> V) (n : string) :
  Dict.get (map (fun k => (k, f k)) ks) n
  = if in_dec string_dec n ks then Some (f n) else None.
Proof.
  induction ks as [| k ks IH]; cbn [map Dict.get].
  - destruct (in_dec string_dec n []); [contradiction | reflexivity].
  - destruct (String.eqb_spec k n) as [-> | Hne].
    + destruct (in_dec string_dec n (n :: ks)) as [_ | Hnot];
        [reflexivity | exfalso; apply Hnot; left; reflexivity].
    + rewrite IH.
      destruct (in_dec string_dec n ks) as [Hin | Hnot];
        destruct (in_dec string_dec n (k :: ks)) as [Hin' | Hnot'];
        try reflexivity.
      * exfalso. apply Hnot'. right. exact Hin.
      * destruct Hin' as [-> | Hin']; contradiction.
Qed.

Lemma keys_tabulate (ks : list string) (f : string -> V) :
  Dict.keys (map (fun k => (k, f k)) ks) = ks.
Proof.
  unfold Dict.keys. rewrite map_map. cbn [fst]. apply map_id.
Qed.

Lemma set_tabulate (ks : list string) (f : string -> V)
    (n : string) (v : V) :
  NoDup ks -> In n ks ->
  Dict.set (map (fun k => (k, f k)) ks) n v
  = map (fun k => (k, if k =? n then v else f k)) ks.
Proof.
  induction 1 as [| k ks Hnot _ IH]; [contradiction |].
  intro Hin. cbn [map Dict.set].
  destruct (String.eqb_spec k n) as [-> | Hne].
  - f_equal. apply map_ext_in. intros k Hk.
    destruct (String.eqb_spec k n) as [-> | _]; [contradiction | reflexivity].
  - f_equal. apply IH. destruct Hin; [contradiction | assumption].
Qed.

End Tabulated.

Section Grouping.
Import Ansible Groups Samples.

Lemma names_requested_snoc (reqs : list (Server * Software))
    (srv : Server) (sw : Software) :
  names_requested (reqs ++ [(srv, sw)])%list
  = if in_dec string_dec (name sw) (names_requested reqs)
    then names_requested reqs
    else (names_requested reqs ++ [name sw])%list.
Proof.
  unfold names_requested. rewrite map_app. cbn [map snd].
  rewrite keep_first_snoc.
  destruct (in_dec string_dec (name sw) (map _ reqs)) as [Hin | Hnot];
    destruct (in_dec string_dec (name sw) (keep_first _ _)) as [Hin' | Hnot'];
    try reflexivity.
  - exfalso. apply Hnot', keep_first_in, Hin.
  - exfalso. apply Hnot, (keep_first_in string_dec), Hin'.
Qed.

(** A request for another name leaves the group of a name as it is. *)
Lemma group_named_other (reqs : list (Server * Software))
    (srv : Server) (sw : Software) (n : string) :
  name sw <> n ->
  group_named n (reqs ++ [(srv, sw)])%list = group_named n reqs.
Proof.
  intro Hne. unfold group_named. rewrite filter_app. cbn [filter].
  unfold named at 2 4. cbn [snd].
  apply String.eqb_neq in Hne. rewrite Hne, app_nil_r. reflexivity.
Qed.

(** A request for the name joins the group; its spec is recorded when no
    equal spec is. *)
Lemma group_named_same (reqs : list (Server * Software))
    (srv : Server) (sw : Software) :
  group_named (name sw) (reqs ++ [(srv, sw)])%list
  = let g := group_named (name sw) reqs in
    mkSoftwareGroup
      (if in_dec Software_eq_dec sw (configs g)
       then configs g
       else (configs g ++ [sw])%list)
      (servers g ++ [mkServerConfig srv sw])%list.
Proof.
  unfold group_named. rewrite filter_app. cbn [filter].
  unfold named at 2 4. cbn [snd fst]. rewrite String.eqb_refl.
  rewrite !map_app. cbn [map fst snd configs servers].
  rewrite keep_first_snoc. f_equal.
  destruct (in_dec Software_eq_dec sw (map snd _)) as [Hin | Hnot];
    destruct (in_dec Software_eq_dec sw (keep_first _ _)) as [Hin' | Hnot'];
    try reflexivity.
  - exfalso. apply Hnot', keep_first_in, Hin.
  - exfalso. apply Hnot, (keep_first_in Software_eq_dec), Hin'.
Qed.

Lemma group_named_unseen (reqs : list (Server * Software)) (n : string) :
  ~ In n (names_requested reqs) -> group_named n reqs = mkSoftwareGroup [] [].
Proof.
  unfold names_requested. rewrite keep_first_in. intro Hnot.
  unfold group_named.
  replace (filter (named n) reqs) with (@nil (Server * Software));
    [reflexivity |].
  symmetry. induction reqs as [| r reqs IH]; [reflexivity |].
  cbn [filter]. unfold named at 1.
  destruct (String.eqb_spec (name (snd r)) n) as [Heq | Hne].
  - exfalso. apply Hnot. left. exact Heq.
  - apply IH. intro Hin. apply Hnot. right. exact Hin.
Qed.

(** The loop of lines 101-120 builds the grouping of the spec. *)
Lemma grouping_loop (reqs : list (Server * Software)) :
  fold_left (fun groups request => group_one groups (fst request) (snd request))
            reqs []
  = grouping reqs.
Proof.
  induction reqs as [| [srv sw] reqs IH] using rev_ind; [reflexivity |].
  rewrite fold_left_app. cbn [fold_left fst snd]. rewrite IH.
  unfold group_one, grouping.
  rewrite get_tabulate, names_requested_snoc.
  destruct (in_dec string_dec (name sw) (names_requested reqs))
    as [Hin | Hnot]; cbn [get_default].
  - rewrite set_tabulate;
      [| apply keep_first_nodup | exact Hin].
    apply map_ext. intro k. f_equal.
    destruct (String.eqb_spec k (name sw)) as [-> | Hne].
    + rewrite group_named_same. reflexivity.
    + rewrite group_named_other; [reflexivity | congruence].
  - rewrite set_new; [| rewrite keys_tabulate; exact Hnot].
    rewrite map_app. cbn [map]. f_equal.
    + apply map_ext_in. intros k Hk. f_equal.
      rewrite group_named_other; [reflexivity |].
      intro Heq. subst k. contradiction.
    + rewrite group_named_same, (group_named_unseen _ _ Hnot).
      reflexivity.
Qed.

(** The nested loops over servers and their software visit the requests. *)
Lemma group_software_requests (all_servers : list Server) :
  group_software all_servers = Dict.values (grouping (requests all_servers)).
Proof.
  unfold group_software. f_equal. rewrite <- grouping_loop.
  unfold requests.
  generalize (@nil (string * SoftwareGroup)) as groups.
  induction all_servers as [| srv rest IH]; intro groups; [reflexivity |].
  cbn [fold_left flat_map]. rewrite fold_left_app, IH. f_equal.
  generalize (software srv) as l. revert groups.
  intros groups l. revert groups.
  induction l as [| sw l IHl]; intro groups; [reflexivity |].
  cbn [fold_left map fst snd]. apply IHl.
Qed.

Lemma requests_specs (all_servers : list Server) :
  map snd (requests all_servers) = flat_map software all_servers.
Proof.
  unfold requests. induction all_servers as [| srv rest IH]; [reflexivity |].
  cbn [flat_map]. rewrite map_app, IH, map_map. cbn [snd].
  now rewrite map_id.
Qed.

Lemma named_specs (reqs : list (Server * Software)) (n : string) :
  map snd (filter (named n) reqs) = specs_named n (map snd reqs).
Proof.
  unfold specs_named, named.
  induction reqs as [| r reqs IH]; [reflexivity |].
  cbn [filter map]. destruct (name (snd r) =? n); cbn [map]; now rewrite IH.
Qed.

(** The groups the engine returns, one per name in first-seen order. *)
Lemma group_software_groups (all_servers : list Server) :
  group_software all_servers
  = map (fun n => group_named n (requests all_servers))
        (names_requested (requests all_servers)).
Proof.
  rewrite group_software_requests. unfold Dict.values, grouping.
  rewrite map_map. reflexivity.
Qed.

Lemma names_requested_in (reqs : list (Server * Software)) (n : string) :
  In n (names_requested reqs) <-> In n (map name (map snd reqs)).
Proof.
  unfold names_requested. rewrite keep_first_in, map_map. reflexivity.
Qed.

(** C5.  Each group the grouping engine returns is the group of a name
    requested, and its configuration list is the list of the specs
    requested under that name with later duplicates dropped: first-seen
    order, each spec requested under the name recorded exactly once, nothing
    else recorded.  Every spec requested is recorded in some group. *)
Theorem configurations_recorded_once (all_servers : list Server) :
  let specs := flat_map software all_servers in
  (forall g, In g (group_software all_servers) ->
     exists n,
       In n (map name specs)
       /\ configs g = keep_first Software_eq_dec (specs_named n specs)
       /\ (forall sw, In sw specs -> name sw = n ->
              count_occ Software_eq_dec (configs g) sw = 1%nat)
       /\ (forall sw, In sw (configs g) -> In sw specs /\ name sw = n))
  /\ (forall sw, In sw specs ->
        exists g, In g (group_software all_servers) /\ In sw (configs g)).
Proof.
  intro specs. subst specs. rewrite group_software_groups.
  rewrite <- requests_specs.
  set (reqs := requests all_servers).
  assert (Hconfigs : forall n,
             configs (group_named n reqs)
             = keep_first Software_eq_dec (specs_named n (map snd reqs)))
    by (intro n; unfold group_named; cbn [configs]; now rewrite named_specs).
  assert (Hin : forall n sw,
             In sw (configs (group_named n reqs))
             <-> In sw (map snd reqs) /\ name sw = n).
  { intros n sw. rewrite Hconfigs, keep_first_in.
    unfold specs_named. rewrite filter_In, String.eqb_eq. reflexivity. }
  split.
  - intros g Hg. apply in_map_iff in Hg. destruct Hg as (n & <- & Hn).
    exists n. split; [apply names_requested_in, Hn |].
    split; [apply Hconfigs |]. split; [| intros sw; apply Hin].
    intros sw Hsw Hname.
    assert (Hrec : In sw (configs (group_named n reqs)))
      by (apply Hin; auto).
    pose proof (keep_first_nodup Software_eq_dec
                  (specs_named n (map snd reqs))) as Hnodup.
    rewrite <- Hconfigs in Hnodup.
    rewrite (NoDup_count_occ Software_eq_dec) in Hnodup.
    specialize (Hnodup sw).
    apply (count_occ_In Software_eq_dec) in Hrec. lia.
  - intros sw Hsw. exists (group_named (name sw) reqs). split.
    + apply in_map_iff. exists (name sw). split; [reflexivity |].
      apply names_requested_in, in_map, Hsw.
    + apply Hin. auto.
Qed.

Lemma configurations_recorded_once_witness :
  group_software [app1; app2; app3]
  = [mkSoftwareGroup [docker; docker_24]
       [mkServerConfig app1 docker; mkServerConfig app2 docker_24;
        mkServerConfig app3 docker];
     mkSoftwareGroup [nginx] [mkServerConfig app1 nginx]]
  /\ exists g, In g (group_software [app1; app2; app3])
               /\ In docker_24 (configs g).
Proof.
  split; [reflexivity |].
  apply (proj2 (configurations_recorded_once [app1; app2; app3])).
  cbn. auto.
Defined.

End Grouping.

(** * The inventory *)

Section Inventory.
Import Ansible Groups Samples.

(** The inner loop only touches the [hosts] of its group. *)
Lemma host_loop (group : string) (scs : list ServerConfig)
    (children : dict (dict value)) (hosts : dict value) :
  Dict.get children group = Some hosts ->
  for_each scs
    (fun children server_config =>
       let srv := server server_config in
       hosts <- subscript (Dict.get children group) group ;;
       Ok (Dict.set children group
             (Dict.set hosts (hostname srv)
                (VDict
                   [("ansible_connection", VStr "aws_ssm");
                    ("ansible_aws_ssm_instance_id", VStr (instance_id srv));
                    ("ansible_aws_ssm_region", VStr (region srv))]))))
    children
  = Ok (Dict.set children group (fold_left add_host scs hosts)).
Proof.
  revert children hosts.
  induction scs as [| sc scs IH]; intros children hosts Hget.
  - cbn. now rewrite set_get_same.
  - cbn [for_each]. rewrite Hget. cbn [subscript bind].
    rewrite (IH _ _ (get_set_same _ _ _)), set_set. reflexivity.
Qed.

(** Servers with distinct hostnames each get an entry, in order. *)
Lemma add_hosts_distinct (scs : list ServerConfig) (hosts : dict value) :
  NoDup (Dict.keys hosts ++ map (fun sc => hostname (server sc)) scs)%list ->
  fold_left add_host scs hosts
  = (hosts ++ map (fun sc => host_entry (server sc)) scs)%list.
Proof.
  revert hosts. induction scs as [| sc scs IH]; intros hosts Hnodup.
  - cbn. now rewrite app_nil_r.
  - cbn [fold_left map]. unfold add_host at 2. rewrite set_new.
    + rewrite IH.
      * rewrite <- app_assoc. reflexivity.
      * unfold Dict.keys in *. rewrite map_app. cbn [map fst host_entry].
        rewrite <- app_assoc. exact Hnodup.
    + cbn [fst host_entry]. apply NoDup_remove_2 in Hnodup.
      intro Hin. apply Hnodup, in_or_app. left. exact Hin.
Qed.

(** The inventory of groups with distinct names: one entry per group, its
    key the name of the first configuration with [_servers] added. *)
Lemma group_loop (group_of : string -> SoftwareGroup) (ks : list string)
    (children : dict (dict value)) :
  NoDup ks ->
  (forall k, In k ks -> ~ In (k ++ "_servers") (Dict.keys children)) ->
  (forall k, In k ks ->
     exists c rest, configs (group_of k) = c :: rest /\ name c = k) ->
  for_each (map group_of ks)
    (fun children software_group =>
       c <- first (configs software_group) ;;
       let group := name c ++ "_servers" in
       for_each (servers software_group)
         (fun children server_config =>
            let srv := server server_config in
            hosts <- subscript (Dict.get children group) group ;;
            Ok (Dict.set children group
                  (Dict.set hosts (hostname srv)
                     (VDict
                        [("ansible_connection", VStr "aws_ssm");
                         ("ansible_aws_ssm_instance_id",
                          VStr (instance_id srv));
                         ("ansible_aws_ssm_region", VStr (region srv))]))))
         (Dict.set children group []))
    children
  = Ok (app children
          (map (fun k => (k ++ "_servers", hosts_of (group_of k))) ks)).
Proof.
  revert children.
  induction ks as [| k ks IH]; intros children Hnodup Hfresh Hfirst.
  - cbn. now rewrite app_nil_r.
  - cbn [map for_each].
    destruct (Hfirst k) as (c & rest & Hcfg & Hname); [left; reflexivity |].
    rewrite Hcfg. cbn [first bind]. rewrite Hname.
    rewrite (host_loop _ _ _ [] (get_set_same _ _ _)), set_set.
    cbn [bind]. fold (hosts_of (group_of k)).
    inversion Hnodup as [| ? ? Hnot Hnodup']; subst.
    rewrite set_new; [| apply Hfresh; left; reflexivity].
    rewrite IH.
    + rewrite <- app_assoc. reflexivity.
    + exact Hnodup'.
    + intros k Hk. unfold Dict.keys. rewrite map_app, in_app_iff.
      cbn [map fst In]. intros [Hin | [Heq | []]].
      * apply (Hfresh k); [right; exact Hk | exact Hin].
      * apply append_inv_tail in Heq. subst k. contradiction.
    + intros k Hk. apply Hfirst. right. exact Hk.
Qed.

(** The first configuration of the group of a requested name has it. *)
Lemma group_named_first (reqs : list (Server * Software)) (n : string) :
  In n (names_requested reqs) ->
  exists c rest, configs (group_named n reqs) = c :: rest /\ name c = n.
Proof.
  intro Hn. apply names_requested_in, in_map_iff in Hn.
  destruct Hn as (sw & Hname & Hsw).
  unfold group_named. cbn [configs]. rewrite named_specs.
  assert (Hin : In sw (specs_named n (map snd reqs)))
    by (apply filter_In; split; [exact Hsw | now apply String.eqb_eq]).
  destruct (specs_named n (map snd reqs)) as [| c rest] eqn:Hspecs;
    [contradiction |].
  exists c. eexists. split; [reflexivity |].
  assert (Hc : In c (specs_named n (map snd reqs)))
    by (rewrite Hspecs; left; reflexivity).
  apply filter_In in Hc. apply String.eqb_eq, Hc.
Qed.

Lemma get_tabulate_injective {V : Type} (key : string -> string)
    (f : string -> V) (ks : list string) (n : string) :
  (forall a b, key a = key b -> a = b) ->
  In n ks ->
  Dict.get (map (fun k => (key k, f k)) ks) (key n) = Some (f n).
Proof.
  intros Hinj. induction ks as [| k ks IH]; [contradiction |].
  intro Hin. cbn [map Dict.get].
  destruct (String.eqb_spec (key k) (key n)) as [Heq | Hne].
  - apply Hinj in Heq. now subst k.
  - apply IH. destruct Hin as [-> | Hin]; [congruence | exact Hin].
Qed.

Lemma get_map_values {V W : Type} (f : V -> W) (d : dict V) (k : string) :
  Dict.get (map (fun item => (fst item, f (snd item))) d) k
  = option_map f (Dict.get d k).
Proof.
  induction d as [| [k' v] d IH]; cbn; [reflexivity |].
  destruct (k' =? k); [reflexivity | exact IH].
Qed.

(** The inventory of the groups of any input: every requested name has its
    group of hosts. *)
Lemma inventory_of_grouping (all_servers : list Server) (n : string) :
  In n (names_requested (requests all_servers)) ->
  exists inventory,
    generate_inventory (group_software all_servers) = Ok inventory
    /\ inventory_hosts inventory (n ++ "_servers")
       = Some (VDict (hosts_of (group_named n (requests all_servers)))).
Proof.
  intro Hn. unfold generate_inventory.
  rewrite group_software_groups.
  rewrite group_loop.
  - cbn [bind app]. eexists. split; [reflexivity |].
    unfold inventory_hosts. cbn [field Dict.get String.eqb Ascii.eqb Bool.eqb].
    rewrite (get_map_values (fun hosts => VDict [("hosts", VDict hosts)])).
    rewrite (get_tabulate_injective (fun k => k ++ "_servers"));
      [reflexivity | | exact Hn].
    intros a b. apply append_inv_tail.
  - apply keep_first_nodup.
  - intros k _ [].
  - intros k Hk. apply group_named_first, Hk.
Qed.

Lemma named_requests_of_server (srv : Server) (sws : list Software)
    (n : string) :
  filter (named n) (map (pair srv) sws) = map (pair srv) (specs_named n sws).
Proof.
  unfold specs_named, named. induction sws as [| sw sws IH]; [reflexivity |].
  cbn [map filter snd]. destruct (name sw =? n); cbn [map]; now rewrite IH.
Qed.

(** When every server asks for the software once, with the same spec, the
    requests under its name are one per server. *)
Lemma named_requests_uniform (all_servers : list Server) (cfg : Software) :
  (forall srv, In srv all_servers ->
     specs_named (name cfg) (software srv) = [cfg]) ->
  filter (named (name cfg)) (requests all_servers)
  = map (fun srv => (srv, cfg)) all_servers.
Proof.
  unfold requests. induction all_servers as [| srv rest IH]; intro Hall;
    [reflexivity |].
  cbn [flat_map map]. rewrite filter_app, named_requests_of_server.
  rewrite (Hall srv), IH; [reflexivity | | left; reflexivity].
  intros srv' Hin. apply Hall. right. exact Hin.
Qed.

(** Assigning the entries of servers keeps the keys distinct. *)
Lemma add_hosts_nodup (scs : list ServerConfig) (hosts : dict value) :
  NoDup (Dict.keys hosts) -> NoDup (Dict.keys (fold_left add_host scs hosts)).
Proof.
  revert hosts. induction scs as [| sc scs IH]; intros hosts Hnodup;
    [exact Hnodup |].
  cbn [fold_left]. apply IH. unfold add_host.
  destruct (Dict.mem hosts (fst (host_entry (server sc)))) eqn:Hmem.
  - apply mem_true_iff in Hmem. now rewrite keys_set_old.
  - apply mem_false_iff in Hmem. rewrite set_new by exact Hmem.
    unfold Dict.keys in *. rewrite map_app. cbn [map fst].
    apply NoDup_app; [exact Hnodup | repeat constructor; auto |].
    intros k Hin [<- | []]. contradiction.
Qed.

(** The keys are those there before and the hostnames of the servers. *)
Lemma add_hosts_keys (scs : list ServerConfig) (hosts : dict value)
    (h : string) :
  In h (Dict.keys (fold_left add_host scs hosts))
  <-> In h (Dict.keys hosts) \/ In h (map (fun sc => hostname (server sc)) scs).
Proof.
  revert hosts. induction scs as [| sc scs IH]; intro hosts; cbn [fold_left map In].
  - tauto.
  - rewrite IH. unfold add_host.
    destruct (Dict.mem hosts (fst (host_entry (server sc)))) eqn:Hmem.
    + apply mem_true_iff in Hmem. rewrite keys_set_old by exact Hmem.
      cbn [fst host_entry] in *. intuition (subst; auto).
    + apply mem_false_iff in Hmem. rewrite set_new by exact Hmem.
      unfold Dict.keys. rewrite map_app, in_app_iff.
      cbn [map fst host_entry In]. tauto.
Qed.

(** C6.  Servers that each ask for the same software with the same
    configuration: the inventory is generated and has the group
    [<name>_servers]; the host keys of the group are distinct and are the
    hostnames of these servers, none left out; and when the hostnames of
    the servers are distinct, the hosts are exactly one entry per server in
    input order, each with the connection transport, the instance
    identifier and the region of its server. *)
Theorem inventory_lists_every_host
    (all_servers : list Server) (cfg : Software) :
  all_servers <> [] ->
  (forall srv, In srv all_servers ->
     specs_named (name cfg) (software srv) = [cfg]) ->
  exists inventory hosts,
    generate_inventory (group_software all_servers) = Ok inventory
    /\ inventory_hosts inventory (name cfg ++ "_servers") = Some (VDict hosts)
    /\ NoDup (Dict.keys hosts)
    /\ (forall h, In h (Dict.keys hosts) <-> In h (map hostname all_servers))
    /\ (NoDup (map hostname all_servers) ->
        hosts = map host_entry all_servers).
Proof.
  intros Hsome Hall.
  destruct (inventory_of_grouping all_servers (name cfg))
    as (inventory & Hgen & Hhosts).
  - apply names_requested_in. rewrite requests_specs.
    destruct all_servers as [| srv rest]; [congruence |].
    apply in_map, in_flat_map. exists srv. split; [left; reflexivity |].
    assert (Hin : In cfg (specs_named (name cfg) (software srv)))
      by (rewrite Hall; [left; reflexivity | left; reflexivity]).
    apply filter_In in Hin. apply Hin.
  - exists inventory. eexists. split; [exact Hgen |].
    split; [exact Hhosts |].
    unfold hosts_of, group_named. cbn [servers].
    rewrite (named_requests_uniform _ _ Hall), map_map. cbn [fst snd].
    split; [apply add_hosts_nodup; constructor |].
    split.
    + intro h. rewrite add_hosts_keys, map_map. cbn [server Dict.keys map In].
      tauto.
    + intro Hnodup.
      rewrite add_hosts_distinct; rewrite map_map; cbn [server app Dict.keys map];
        [reflexivity | exact Hnodup].
Qed.

Lemma inventory_lists_every_host_witness :
  exists inventory,
    generate_inventory (group_software [app1; app3]) = Ok inventory
    /\ inventory_hosts inventory "docker_servers"
       = Some (VDict [host_entry app1; host_entry app3]).
Proof.
  destruct (inventory_lists_every_host [app1; app3] docker)
    as (inventory & hosts & Hgen & Hhosts & _ & _ & Hexact).
  - discriminate.
  - intros srv [<- | [<- | []]]; reflexivity.
  - exists inventory. split; [exact Hgen |].
    change (name docker ++ "_servers") with "docker_servers" in Hhosts.
    rewrite Hhosts, Hexact; [reflexivity |].
    repeat constructor; cbn; intuition discriminate.
Defined.

End Inventory.

(** * The IAM generator *)

Section IamRun.
Import Iam Runs IamSamples.

Lemma extend_tasks (users : list User) (tasks : list value) :
  fold_left (fun tasks user => (tasks ++ user_tasks user)%list) users tasks
  = (tasks ++ flat_map user_tasks users)%list.
Proof.
  revert tasks. induction users as [| u users IH]; intro tasks; cbn.
  - now rewrite app_nil_r.
  - rewrite IH, <- app_assoc. reflexivity.
Qed.

Lemma user_tasks_no_ints (users : list User) :
  flat_map value_ints (flat_map user_tasks users) = [].
Proof.
  induction users as [| u users IH]; [reflexivity |].
  cbn [flat_map]. rewrite flat_map_app, IH. reflexivity.
Qed.

Lemma user_tasks_ignore_expiration (a b : list User) :
  same_but_expiration a b ->
  flat_map user_tasks a = flat_map user_tasks b.
Proof.
  induction 1 as [| x y a b (Hname & Hpolicy & _) _ IH]; [reflexivity |].
  cbn [flat_map]. rewrite IH. unfold user_tasks.
  rewrite Hname, Hpolicy. reflexivity.
Qed.

(** The events of a run in which the vault is created. *)
Lemma main_success (u : User) (rest : list User)
    (pw stderr : string) (host : Host) :
  pw <> EmptyString ->
  ansible_vault host = Exited 0 stderr ->
  rm_found host = true ->
  exists vault_data,
    main (u :: rest) pw host =
      [Print "IAM User Creation Script";
       Print "==============================";
       Print (newline ++ "--- Vault Encryption ---");
       Print "Creating encrypted vault file...";
       WriteFile "temp_vault.yml" vault_data;
       store_created pw;
       Remove "temp_vault.yml";
       Print "Creating Ansible playbook...";
       WriteFile entrypoint
         (VList [create_ansible_playbook (u :: rest) (expiration_days u)]);
       Print (newline ++ "Files created successfully:");
       Print "- create_iam_users.yml (Ansible playbook)";
       Print "- vault.yml (Encrypted passwords)";
       Print (newline ++ "To run the playbook:");
       Print "ansible-playbook create_iam_users.yml --ask-vault-pass"].
Proof.
  intros Hpw Hvault Hrm. unfold main, create_vault_file.
  destruct (pw =? EmptyString) eqn:E;
    [apply String.eqb_eq in E; contradiction |].
  rewrite Hvault, Hrm. cbn. eauto.
Qed.

Lemma prefix_before {A : Type} (l1 l2 pre post : list A) (x : A) :
  (l1 ++ l2)%list = (pre ++ x :: post)%list ->
  ~ In x l1 ->
  exists mid, pre = (l1 ++ mid)%list.
Proof.
  revert pre. induction l1 as [| a l1 IH]; intros pre Heq Hnot.
  - exists pre. reflexivity.
  - destruct pre as [| b pre]; cbn in Heq; injection Heq as Hhead Htail.
    + subst a. exfalso. apply Hnot. left. reflexivity.
    + subst b. destruct (IH pre Htail) as [mid ->].
      * intro Hin. apply Hnot. right. exact Hin.
      * exists mid. reflexivity.
Qed.

(** The entrypoint is written only by a run that had users, a vault
    password, a successful encryption and a working [rm]. *)
Lemma entrypoint_written_inv (users : list User) (pw : string)
    (host : Host) (doc : value) :
  In (WriteFile entrypoint doc) (main users pw host) ->
  exists u rest stderr,
    users = u :: rest /\ pw <> EmptyString
    /\ ansible_vault host = Exited 0 stderr /\ rm_found host = true.
Proof.
  unfold main, create_vault_file, entrypoint.
  destruct users as [| u rest]; [cbn; intuition discriminate |].
  destruct (pw =? EmptyString) eqn:Hpw; [cbn; intuition discriminate |].
  apply String.eqb_neq in Hpw.
  destruct host as [[| returncode stderr] rm]; cbn [ansible_vault rm_found];
    [cbn; intuition discriminate |].
  destruct (returncode =? 0)%Z eqn:Hcode; cbn [negb];
    [| cbn; intuition discriminate].
  apply Z.eqb_eq in Hcode. subst returncode.
  destruct rm; [| cbn; intuition discriminate].
  intros _. exists u, rest, stderr. auto.
Qed.

(** C8.  In every run of the IAM generator, whatever precedes the write
    of the entrypoint contains the event by which the encryption tool
    confirms that the store was created; and when the encryption fails
    (tool absent or non-zero exit) the entrypoint is not written. *)
Theorem entrypoint_only_after_store_created
    (users : list User) (pw : string) (host : Host) :
  (forall pre doc post,
      main users pw host = (pre ++ WriteFile entrypoint doc :: post)%list ->
      In (store_created pw) pre)
  /\ (encryption_failed host ->
      forall doc, ~ In (WriteFile entrypoint doc) (main users pw host)).
Proof.
  split.
  - intros pre doc post Hrun.
    assert (Hin : In (WriteFile entrypoint doc) (main users pw host))
      by (rewrite Hrun; apply in_elt).
    destruct (entrypoint_written_inv _ _ _ _ Hin)
      as (u & rest & stderr & -> & Hpw & Hvault & Hrm).
    destruct (main_success u rest pw stderr host Hpw Hvault Hrm)
      as [vault_data Htrace].
    rewrite Htrace in Hrun.
    match type of Hrun with
    | ?a :: ?b :: ?c :: ?d :: ?e :: ?f :: ?tail = _ =>
        apply (prefix_before [a; b; c; d; e; f] tail) in Hrun
    end.
    + destruct Hrun as [mid ->]. cbn. auto 10.
    + unfold entrypoint, store_created. cbn. intuition discriminate.
  - intros Hfailed doc Hin.
    destruct (entrypoint_written_inv _ _ _ _ Hin)
      as (u & rest & stderr & _ & _ & Hvault & _).
    unfold encryption_failed in Hfailed. rewrite Hvault in Hfailed.
    apply Hfailed. reflexivity.
Qed.

Lemma entrypoint_only_after_store_created_witness :
  (exists pre doc post,
      main [alice; bob] "vault-pass" host_ok
      = (pre ++ WriteFile entrypoint doc :: post)%list
      /\ In (store_created "vault-pass") pre)
  /\ forall doc,
      ~ In (WriteFile entrypoint doc)
           (main [alice; bob] "vault-pass" host_vault_error).
Proof.
  split.
  - exists (firstn 8 (main [alice; bob] "vault-pass" host_ok)),
           (VList [create_ansible_playbook [alice; bob] 90]),
           (skipn 9 (main [alice; bob] "vault-pass" host_ok)).
    split; [reflexivity |].
    apply (proj1 (entrypoint_only_after_store_created
                    [alice; bob] "vault-pass" host_ok)
             _ (VList [create_ansible_playbook [alice; bob] 90])
             (skipn 9 (main [alice; bob] "vault-pass" host_ok))).
    reflexivity.
  - apply (entrypoint_only_after_store_created
             [alice; bob] "vault-pass" host_vault_error).
    cbn. discriminate.
Defined.

(** C10.  A run over a non-empty user list that creates the vault writes
    exactly one entrypoint, the playbook of [create_ansible_playbook]; its
    first task is the password-policy task with [pw_max_age] set to the
    first user's [expiration_days]; the only integers of the playbook are
    the constants 12 and 3 and that value; and the playbook stays the same
    when the [expiration_days] of the later users change. *)
Theorem first_user_sets_pw_max_age
    (u : User) (rest : list User) (pw stderr : string) (host : Host) :
  pw <> EmptyString ->
  ansible_vault host = Exited 0 stderr ->
  rm_found host = true ->
  let playbook := create_ansible_playbook (u :: rest) (expiration_days u) in
  In (WriteFile entrypoint (VList [playbook])) (main (u :: rest) pw host)
  /\ (forall doc,
        In (WriteFile entrypoint doc) (main (u :: rest) pw host) ->
        doc = VList [playbook])
  /\ (exists policy_task tasks,
        field playbook "tasks" = Some (VList (policy_task :: tasks))
        /\ field policy_task "name"
           = Some (VStr "Set account password policy")
        /\ pw_max_age policy_task = Some (VInt (expiration_days u)))
  /\ value_ints playbook = [12%Z; expiration_days u; 3%Z]
  /\ (forall rest',
        same_but_expiration rest rest' ->
        create_ansible_playbook (u :: rest') (expiration_days u) = playbook).
Proof.
  intros Hpw Hvault Hrm playbook.
  destruct (main_success u rest pw stderr host Hpw Hvault Hrm)
    as [vault_data Htrace].
  rewrite Htrace. subst playbook. unfold create_ansible_playbook.
  rewrite !extend_tasks.
  split; [| split; [| split; [| split]]].
  - cbn. auto 10.
  - intros doc Hin. unfold entrypoint, store_created in Hin. cbn in Hin.
    repeat (destruct Hin as [Hin | Hin]; try discriminate Hin);
      [| contradiction].
    injection Hin as <-. reflexivity.
  - eexists _, _. cbn. repeat split.
  - cbn [value_ints flat_map snd app].
    change (user_tasks u ++ flat_map user_tasks rest)%list
      with (flat_map user_tasks (u :: rest)).
    rewrite user_tasks_no_ints. reflexivity.
  - intros rest' Hsame. rewrite extend_tasks.
    cbn [flat_map]. rewrite (user_tasks_ignore_expiration _ _ Hsame).
    reflexivity.
Qed.

Lemma first_user_sets_pw_max_age_witness :
  value_ints (create_ansible_playbook [alice; bob] 90) = [12%Z; 90%Z; 3%Z]
  /\ create_ansible_playbook [alice; bob_365] 90
     = create_ansible_playbook [alice; bob] 90.
Proof.
  destruct (first_user_sets_pw_max_age alice [bob] "vault-pass" EmptyString
              host_ok)
    as (_ & _ & _ & Hints & Hsame); [discriminate | reflexivity .. |].
  split; [exact Hints |].
  apply Hsame. repeat constructor.
Defined.

End IamRun.

(** * More on the task synthesizer *)

Section SynthesizerErrors.
Import Ansible Steps Groups Calls Samples MoreSamples.

(** Splits on the tests [generate_basic_tasks] makes on the method and
    turns each test into an equation or an inequation. *)
Ltac split_method sw :=
  destruct (String.eqb_spec (method_of sw) "package") as [Hpackage | Hpackage];
  [| destruct (String.eqb_spec (method_of sw) "snap") as [Hsnap | Hsnap];
     [| destruct (String.eqb_spec (method_of sw) "script") as [Hscript | Hscript];
        [| destruct (String.eqb_spec (method_of sw) "manual")
             as [Hmanual | Hmanual]]]].





(** X3.  The step sequence is empty only for a method without branch:
    in unconditional mode exactly for the methods that are none of the four,
    in conditional mode exactly for the methods other than [package] and
    [script], [snap] and [manual] among them. *)
Theorem no_steps_exactly_without_branch (sw : Software) :
  (generate_basic_tasks sw = Ok [] <-> ~ recognized (method_of sw))
  /\ (forall family,
        generate_os_specific_tasks sw family = Ok []
        <-> ~ branched_per_family (method_of sw)).
Proof.
  unfold recognized, branched_per_family. split.
  - unfold generate_basic_tasks. split_method sw.
    + split; [| tauto].
      destruct (custom_repo sw) as [cr |];
        [destruct (truthy (key_url cr)) |]; discriminate.
    + split; [discriminate | tauto].
    + split; [| tauto]. destruct (script_url sw); discriminate.
    + split; [| tauto]. destruct (install_path sw); [| discriminate].
      destruct (download_url sw); discriminate.
    + tauto.
  - intro family. unfold generate_os_specific_tasks.
    destruct (String.eqb_spec (method_of sw) "package") as [Hpackage | Hpackage].
    + split; [| tauto].
      destruct (custom_repo sw) as [cr |];
        [destruct (truthy (key_url cr)) |]; discriminate.
    + destruct (String.eqb_spec (method_of sw) "script") as [Hscript | Hscript].
      * split; [| tauto]. destruct (script_url sw); discriminate.
      * tauto.
Qed.

Lemma no_steps_exactly_without_branch_witness :
  generate_basic_tasks nginx_brew = Ok []
  /\ generate_os_specific_tasks htop_snap "Debian" = Ok []
  /\ recognized (method_of htop_snap).
Proof.
  split; [| split].
  - apply (proj1 (no_steps_exactly_without_branch nginx_brew)).
    unfold recognized. cbn. intros [H | [H | [H | H]]]; discriminate H.
  - apply (proj2 (no_steps_exactly_without_branch htop_snap) "Debian").
    unfold branched_per_family. cbn. intros [H | H]; discriminate H.
  - right. left. reflexivity.
Defined.

(** X4.  For a [package] or a [script] spec, conditional mode calls the same
    modules with the same arguments, in the same order, as unconditional
    mode: the steps differ in their names and the guard only, and when the
    script URL is missing both raise the same exception. *)
Theorem same_module_calls_in_both_modes (sw : Software) (family : string) :
  branched_per_family (method_of sw) ->
  match generate_basic_tasks sw, generate_os_specific_tasks sw family with
  | Ok basic, Ok per_family =>
      map module_call per_family = map module_call basic
  | Raise e, Raise e' => e = e'
  | _, _ => False
  end.
Proof.
  unfold generate_basic_tasks, generate_os_specific_tasks.
  intros [Hmethod | Hmethod]; rewrite Hmethod;
    cbn [String.eqb Ascii.eqb Bool.eqb].
  - destruct (custom_repo sw) as [cr |];
      [destruct (truthy (key_url cr)) |]; reflexivity.
  - destruct (script_url sw); reflexivity.
Qed.

Lemma same_module_calls_in_both_modes_witness :
  match generate_basic_tasks docker, generate_os_specific_tasks docker "RedHat" with
  | Ok basic, Ok per_family =>
      map module_call per_family = map module_call basic
  | Raise e, Raise e' => e = e'
  | _, _ => False
  end.
Proof.
  apply (same_module_calls_in_both_modes docker "RedHat").
  left. reflexivity.
Defined.

End SynthesizerErrors.

(** * More on the task set of a group *)

Section FamilyOrder.
Import Ansible Steps Groups Samples MoreSamples.

(** The families of the task set are in first-seen order. *)
Lemma os_configs_key_order (scs : list ServerConfig) :
  Dict.keys (os_configs_of scs) = keep_first string_dec (map family_of scs).
Proof.
  induction scs as [| sc scs IH] using rev_ind; [reflexivity |].
  rewrite os_configs_snoc, map_app. cbn [map]. rewrite keep_first_snoc.
  destruct (Dict.mem (os_configs_of scs) (family_of sc)) eqn:Hmem;
    destruct (in_dec string_dec (family_of sc) (map family_of scs))
      as [Hin | Hnot].
  - exact IH.
  - apply mem_true_iff, os_configs_keys in Hmem. contradiction.
  - apply mem_false_iff in Hmem. rewrite os_configs_keys in Hmem.
    contradiction.
  - unfold Dict.keys in *. rewrite map_app, IH. reflexivity.
Qed.

(** The loop of conditional mode appends one block of steps per entry. *)
Lemma conditional_loop_blocks (items : dict Software) (acc tasks : list task) :
  for_each items
    (fun tasks item =>
       new <- generate_os_specific_tasks (snd item) (fst item) ;;
       Ok (tasks ++ new)%list)
    acc = Ok tasks ->
  exists blocks,
    tasks = (acc ++ concat blocks)%list
    /\ Forall2
         (fun item block =>
            generate_os_specific_tasks (snd item) (fst item) = Ok block)
         items blocks.
Proof.
  revert acc. induction items as [| item items IH]; intro acc; cbn.
  - intro H. injection H as <-. exists []. cbn. now rewrite app_nil_r.
  - destruct (generate_os_specific_tasks (snd item) (fst item))
      as [new | e] eqn:Hnew; cbn; [| discriminate].
    intro Hrest. destruct (IH _ Hrest) as (blocks & -> & Hblocks).
    exists (new :: blocks). cbn. rewrite <- app_assoc. auto.
Qed.

(** The loop of conditional mode raises what an entry raises. *)
Lemma conditional_loop_raises (items : dict Software) (acc : list task)
    (e : exn) :
  for_each items
    (fun tasks item =>
       new <- generate_os_specific_tasks (snd item) (fst item) ;;
       Ok (tasks ++ new)%list)
    acc = Raise e ->
  exists item,
    In item items
    /\ generate_os_specific_tasks (snd item) (fst item) = Raise e.
Proof.
  revert acc. induction items as [| item items IH]; intro acc; cbn;
    [discriminate |].
  destruct (generate_os_specific_tasks (snd item) (fst item))
    as [new | e'] eqn:Hnew; cbn.
  - intro Hrest. destruct (IH _ Hrest) as (item' & Hin & Hraise).
    exists item'. auto.
  - intro H. injection H as <-. exists item. auto.
Qed.

(** X5.  The task set lists the OS families in the order in which the
    servers of the group first show them.  In conditional mode the step
    sequence is the steps of the first family, then those of the second,
    and so on, each block being what [generate_os_specific_tasks] gives for
    the family and its configuration; an exception of the synthesis is the
    exception of one of the families. *)
Theorem conditional_steps_by_family_in_first_seen_order (g : SoftwareGroup) :
  Dict.keys (os_configs_of (servers g))
  = keep_first string_dec (map family_of (servers g))
  /\ (several_families g ->
      (forall tasks,
          generate_software_tasks g = Ok tasks ->
          exists blocks,
            tasks = concat blocks
            /\ Forall2
                 (fun item block =>
                    generate_os_specific_tasks (snd item) (fst item)
                    = Ok block)
                 (os_configs_of (servers g)) blocks)
      /\ (forall e,
            generate_software_tasks g = Raise e ->
            exists item,
              In item (os_configs_of (servers g))
              /\ generate_os_specific_tasks (snd item) (fst item) = Raise e)).
Proof.
  split; [apply os_configs_key_order |].
  intro Hseveral. unfold generate_software_tasks.
  rewrite (several_families_entries g Hseveral). split.
  - intros tasks Htasks.
    destruct (conditional_loop_blocks _ _ _ Htasks) as (blocks & -> & Hblocks).
    exists blocks. auto.
  - intros e. apply conditional_loop_raises.
Qed.

Lemma conditional_steps_by_family_in_first_seen_order_witness :
  Dict.keys (os_configs_of (servers docker_group)) = ["Debian"; "RedHat"]
  /\ exists debian_steps redhat_steps,
      generate_software_tasks docker_group
      = Ok (debian_steps ++ redhat_steps)%list
      /\ generate_os_specific_tasks docker "Debian" = Ok debian_steps
      /\ generate_os_specific_tasks docker_24 "RedHat" = Ok redhat_steps.
Proof.
  destruct (conditional_steps_by_family_in_first_seen_order docker_group)
    as [Horder Hsteps].
  split; [exact Horder |].
  destruct Hsteps as [Hblocks _].
  - exists (mkServerConfig web4 docker), (mkServerConfig web5 docker_24).
    cbn. repeat split; auto. discriminate.
  - destruct (Hblocks _ eq_refl) as (blocks & Htasks & Hall).
    inversion Hall as [| ? debian_steps ? rest1 Hdebian Hall1]; subst.
    inversion Hall1 as [| ? redhat_steps ? rest2 Hredhat Hall2]; subst.
    inversion Hall2; subst.
    exists debian_steps, redhat_steps. cbn [fst snd] in *.
    split; [| split; assumption].
    cbn [concat] in Htasks. rewrite app_nil_r in Htasks.
    rewrite <- Htasks. reflexivity.
Defined.

(** One family from the first server on: the task set is its entry alone. *)
Lemma os_configs_one_family (sc : ServerConfig) (rest : list ServerConfig) :
  (forall b, In b rest -> family_of b = family_of sc) ->
  os_configs_of (sc :: rest) = [(family_of sc, config sc)].
Proof.
  induction rest as [| b rest IH] using rev_ind; intro Hsame; [reflexivity |].
  rewrite app_comm_cons, os_configs_snoc, IH.
  - rewrite (Hsame b) by (apply in_or_app; right; left; reflexivity).
    unfold Dict.mem. cbn [Dict.get]. now rewrite String.eqb_refl.
  - intros b' Hin. apply Hsame, in_or_app. left. exact Hin.
Qed.

(** X6.  A group without server makes [generate_software_tasks] raise
    [IndexError].  A group whose servers are all of the family of the first
    one is synthesized as [generate_basic_tasks] of the configuration of
    that first server, steps and exceptions alike: the configurations of
    the other servers are not read. *)
Theorem one_family_group_uses_first_config (g : SoftwareGroup) :
  (servers g = [] -> generate_software_tasks g = Raise IndexError)
  /\ (forall sc rest,
        servers g = sc :: rest ->
        (forall b, In b rest -> family_of b = family_of sc) ->
        generate_software_tasks g = generate_basic_tasks (config sc)).
Proof.
  unfold generate_software_tasks. split.
  - intros ->. reflexivity.
  - intros sc rest -> Hsame. rewrite (os_configs_one_family sc rest Hsame).
    cbn. destruct (generate_basic_tasks (config sc)); reflexivity.
Qed.

Lemma one_family_group_uses_first_config_witness :
  generate_software_tasks (mkSoftwareGroup [] []) = Raise IndexError
  /\ generate_software_tasks
       (mkSoftwareGroup [docker; docker_24]
          [mkServerConfig web4 docker; mkServerConfig web3 docker_24])
     = generate_basic_tasks docker.
Proof.
  split.
  - apply (one_family_group_uses_first_config (mkSoftwareGroup [] [])).
    reflexivity.
  - apply (proj2 (one_family_group_uses_first_config
                    (mkSoftwareGroup [docker; docker_24]
                       [mkServerConfig web4 docker;
                        mkServerConfig web3 docker_24]))
             (mkServerConfig web4 docker) [mkServerConfig web3 docker_24]).
    + reflexivity.
    + intros b [<- | []]. reflexivity.
Defined.

End FamilyOrder.

(** * More on the grouping engine *)

Section GroupInvariants.
Import Ansible Groups GroupShape Samples MoreSamples.

Lemma in_requests (all_servers : list Server) (srv : Server) (sw : Software) :
  In (srv, sw) (requests all_servers)
  <-> In srv all_servers /\ In sw (software srv).
Proof.
  unfold requests. rewrite in_flat_map. split.
  - intros (srv' & Hsrv & Hin). apply in_map_iff in Hin.
    destruct Hin as (sw' & Heq & Hsw). injection Heq as <- <-. auto.
  - intros [Hsrv Hsw]. exists srv. split; [exact Hsrv |].
    apply in_map. exact Hsw.
Qed.

Lemma group_named_servers (reqs : list (Server * Software)) (n : string)
    (sc : ServerConfig) :
  In sc (servers (group_named n reqs))
  <-> In (server sc, config sc) reqs /\ name (config sc) = n.
Proof.
  unfold group_named. cbn [servers]. rewrite in_map_iff. split.
  - intros ([srv sw] & <- & Hin). apply filter_In in Hin.
    unfold named in Hin. cbn [fst snd server config] in *.
    rewrite String.eqb_eq in Hin. exact Hin.
  - intros [Hin Hname]. exists (server sc, config sc). split;
      [destruct sc; reflexivity |].
    apply filter_In. unfold named. cbn [snd]. rewrite String.eqb_eq. auto.
Qed.

Lemma group_named_configs (reqs : list (Server * Software)) (n : string)
    (c : Software) :
  In c (configs (group_named n reqs))
  <-> In c (map snd reqs) /\ name c = n.
Proof.
  unfold group_named. cbn [configs].
  rewrite keep_first_in, named_specs. unfold specs_named.
  rewrite filter_In, String.eqb_eq. reflexivity.
Qed.

Lemma nodup_map_some {A : Type} (l : list A) :
  NoDup l -> NoDup (map Some l).
Proof.
  induction 1 as [| a l Hnot _ IH]; cbn; constructor; [| exact IH].
  intro Hin. apply in_map_iff in Hin. destruct Hin as (b & Heq & Hb).
  injection Heq as ->. contradiction.
Qed.

(** X7.  Every group the grouping engine returns has a configuration and
    an association; all its configurations and associations are for one
    software name; the configuration of each association is among the
    configurations recorded; and no two groups have the same name, the
    groups coming in the order in which the names are first requested. *)
Theorem groups_well_formed (all_servers : list Server) :
  (forall g, In g (group_software all_servers) ->
     configs g <> [] /\ servers g <> []
     /\ (exists n, first_name g = Some n /\ all_named n g)
     /\ (forall sc, In sc (servers g) ->
           In (config sc) (configs g)
           /\ In (server sc) all_servers
           /\ In (config sc) (software (server sc))))
  /\ map first_name (group_software all_servers)
     = map Some (keep_first string_dec
                   (map name (flat_map software all_servers)))
  /\ NoDup (map first_name (group_software all_servers)).
Proof.
  rewrite group_software_groups. set (reqs := requests all_servers).
  assert (Hfirst : forall n, In n (names_requested reqs) ->
             first_name (group_named n reqs) = Some n).
  { intros n Hn. destruct (group_named_first reqs n Hn) as (c & rest & Hc & Hn').
    unfold first_name. rewrite Hc, Hn'. reflexivity. }
  assert (Hnames : map first_name
                     (map (fun n => group_named n reqs) (names_requested reqs))
                   = map Some (names_requested reqs)).
  { rewrite map_map. apply map_ext_in. exact Hfirst. }
  split; [| split].
  - intros g Hg. apply in_map_iff in Hg. destruct Hg as (n & <- & Hn).
    destruct (group_named_first reqs n Hn) as (c & rest & Hc & Hname).
    assert (Hsome : exists sc, In sc (servers (group_named n reqs))).
    { assert (Hin : In c (configs (group_named n reqs)))
        by (rewrite Hc; left; reflexivity).
      apply group_named_configs in Hin. destruct Hin as [Hin _].
      apply in_map_iff in Hin. destruct Hin as ([srv sw] & <- & Hreq).
      exists (mkServerConfig srv sw). apply group_named_servers. auto. }
    split; [rewrite Hc; discriminate |].
    split; [destruct Hsome as [sc Hsc]; intro Hnil; rewrite Hnil in Hsc;
            contradiction |].
    split.
    + exists n. split; [apply Hfirst, Hn |]. split.
      * intros c' Hc'. apply group_named_configs in Hc'. apply Hc'.
      * intros sc Hsc. apply group_named_servers in Hsc. apply Hsc.
    + intros sc Hsc. apply group_named_servers in Hsc.
      destruct Hsc as [Hreq Hname'].
      split; [| apply in_requests; exact Hreq].
      apply group_named_configs. split; [| exact Hname'].
      apply in_map_iff. exists (server sc, config sc). auto.
  - rewrite Hnames. unfold names_requested, reqs.
    rewrite <- requests_specs, map_map. reflexivity.
  - rewrite Hnames. apply nodup_map_some, keep_first_nodup.
Qed.

Lemma groups_well_formed_witness :
  exists g n,
    In g (group_software [app1; app2; app3])
    /\ first_name g = Some n /\ all_named n g /\ servers g <> [].
Proof.
  destruct (groups_well_formed [app1; app2; app3]) as [Hgroups _].
  destruct (Hgroups (mkSoftwareGroup [nginx] [mkServerConfig app1 nginx]))
    as (_ & Hservers & (n & Hfirst & Hnamed) & _).
  - right. left. reflexivity.
  - eexists _, n. split; [right; left; reflexivity |]. auto.
Defined.

(** X8.  Each request of a server for a software is an association of a
    group, and the associations of the groups are nothing else: the pair of
    a server and one of its specs is in the group of the name of the spec,
    in the order of the input. *)
Theorem associations_are_the_requests (all_servers : list Server) :
  (forall srv sw,
      In srv all_servers /\ In sw (software srv)
      <-> exists g, In g (group_software all_servers)
                    /\ In (mkServerConfig srv sw) (servers g))
  /\ (forall g n,
        In g (group_software all_servers) -> first_name g = Some n ->
        servers g
        = map (fun request => mkServerConfig (fst request) (snd request))
              (filter (named n) (requests all_servers))).
Proof.
  rewrite group_software_groups. set (reqs := requests all_servers). split.
  - intros srv sw. rewrite <- in_requests. fold reqs. split.
    + intro Hreq. exists (group_named (name sw) reqs). split.
      * apply in_map_iff. exists (name sw). split; [reflexivity |].
        apply names_requested_in, in_map_iff.
        exists sw. split; [reflexivity |].
        apply in_map_iff. exists (srv, sw). auto.
      * apply group_named_servers. auto.
    + intros (g & Hg & Hin). apply in_map_iff in Hg.
      destruct Hg as (n & <- & _). apply group_named_servers in Hin.
      apply Hin.
  - intros g n Hg Hfirst. apply in_map_iff in Hg.
    destruct Hg as (n' & <- & Hn').
    destruct (group_named_first reqs n' Hn') as (c & rest & Hc & Hname).
    unfold first_name in Hfirst. rewrite Hc, Hname in Hfirst.
    injection Hfirst as ->. reflexivity.
Qed.

Lemma associations_are_the_requests_witness :
  exists g, In g (group_software [app1; app2; app3])
            /\ In (mkServerConfig app2 docker_24) (servers g).
Proof.
  apply (proj1 (associations_are_the_requests [app1; app2; app3])
           app2 docker_24).
  cbn. auto 6.
Defined.

(** X9.  The grouping engine returns no group exactly when no server asks
    for any software, and otherwise as many groups as there are distinct
    names requested. *)
Theorem no_request_no_group (all_servers : list Server) :
  (group_software all_servers = []
   <-> forall srv, In srv all_servers -> software srv = [])
  /\ length (group_software all_servers)
     = length (keep_first string_dec
                 (map name (flat_map software all_servers))).
Proof.
  rewrite group_software_groups. unfold names_requested.
  rewrite <- (map_map snd name), requests_specs. split.
  - split.
    + intros Hnil srv Hsrv.
      destruct (software srv) as [| sw sws] eqn:Hsw; [reflexivity |].
      exfalso.
      assert (Hin : In (name sw)
                      (keep_first string_dec
                         (map name (flat_map software all_servers)))).
      { apply keep_first_in, in_map, in_flat_map. exists srv.
        rewrite Hsw. split; [exact Hsrv | left; reflexivity]. }
      apply map_eq_nil in Hnil. rewrite Hnil in Hin. contradiction.
    + intro Hnone.
      replace (flat_map software all_servers) with (@nil Software);
        [reflexivity |].
      symmetry. induction all_servers as [| srv rest IH]; [reflexivity |].
      cbn [flat_map]. rewrite (Hnone srv) by (left; reflexivity).
      apply IH. intros srv' Hin. apply Hnone. right. exact Hin.
  - apply length_map.
Qed.

Lemma no_request_no_group_witness :
  group_software [mkServer "idle" "i-0099" "us-east-1" "ubuntu" "Debian" "logs" []]
  = [].
Proof.
  apply (proj1 (no_request_no_group
                  [mkServer "idle" "i-0099" "us-east-1" "ubuntu" "Debian"
                            "logs" []])).
  intros srv [<- | []]. reflexivity.
Defined.

End GroupInvariants.

(** * Inventory, playbook and files together *)

Section InventoryAndPlaybook.
Import Ansible AnsibleIO Groups GroupShape Files Samples MoreSamples.

Lemma keys_set_in {V : Type} (d : dict V) (k k' : string) (v : V) :
  In k (Dict.keys (Dict.set d k' v)) <-> In k (Dict.keys d) \/ k = k'.
Proof.
  destruct (Dict.mem d k') eqn:Hmem.
  - apply mem_true_iff in Hmem. rewrite keys_set_old by exact Hmem.
    intuition (subst; auto).
  - apply mem_false_iff in Hmem. rewrite set_new by exact Hmem.
    unfold Dict.keys. rewrite map_app, in_app_iff. cbn. intuition auto.
Qed.

Lemma get_some_iff {V : Type} (d : dict V) (k : string) :
  (exists v, Dict.get d k = Some v) <-> In k (Dict.keys d).
Proof.
  rewrite <- mem_true_iff. unfold Dict.mem.
  destruct (Dict.get d k) as [v |]; split; try discriminate; eauto.
  intros [v H]. discriminate H.
Qed.

(** The outer loop of [generate_inventory] on groups that all have a
    configuration. *)
Lemma inventory_loop (gs : list SoftwareGroup) (children : dict (dict value)) :
  Forall (fun g => configs g <> []) gs ->
  for_each gs
    (fun children software_group =>
       c <- first (configs software_group) ;;
       let group := name c ++ "_servers" in
       for_each (servers software_group)
         (fun children server_config =>
            let srv := server server_config in
            hosts <- subscript (Dict.get children group) group ;;
            Ok (Dict.set children group
                  (Dict.set hosts (hostname srv)
                     (VDict
                        [("ansible_connection", VStr "aws_ssm");
                         ("ansible_aws_ssm_instance_id",
                          VStr (instance_id srv));
                         ("ansible_aws_ssm_region", VStr (region srv))]))))
         (Dict.set children group []))
    children
  = Ok (fold_left with_group gs children).
Proof.
  intro Hall. revert children.
  induction Hall as [| g gs Hg _ IH]; intro children; [reflexivity |].
  cbn [for_each fold_left].
  unfold with_group at 2, group_key, first_name.
  destruct (configs g) as [| c rest]; [congruence |].
  cbn [first bind option_map].
  rewrite (host_loop _ _ _ [] (get_set_same _ _ _)), set_set.
  cbn [bind]. apply IH.
Qed.

(** The same loop when a group has no configuration. *)
Lemma inventory_loop_raises (gs : list SoftwareGroup)
    (children : dict (dict value)) :
  Exists (fun g => configs g = []) gs ->
  for_each gs
    (fun children software_group =>
       c <- first (configs software_group) ;;
       let group := name c ++ "_servers" in
       for_each (servers software_group)
         (fun children server_config =>
            let srv := server server_config in
            hosts <- subscript (Dict.get children group) group ;;
            Ok (Dict.set children group
                  (Dict.set hosts (hostname srv)
                     (VDict
                        [("ansible_connection", VStr "aws_ssm");
                         ("ansible_aws_ssm_instance_id",
                          VStr (instance_id srv));
                         ("ansible_aws_ssm_region", VStr (region srv))]))))
         (Dict.set children group []))
    children
  = Raise IndexError.
Proof.
  revert children. induction gs as [| g gs IH]; intros children Hex;
    [inversion Hex |].
  cbn [for_each].
  destruct (configs g) as [| c rest] eqn:Hc; [reflexivity |].
  cbn [first bind].
  rewrite (host_loop _ _ _ [] (get_set_same _ _ _)), set_set.
  cbn [bind]. apply IH.
  inversion Hex as [? ? Hnil | ? ? Hrest]; subst; [congruence | exact Hrest].
Qed.

Lemma playbook_loop (gs : list SoftwareGroup) (plays : list value) :
  Forall (fun g => configs g <> []) gs ->
  for_each gs
    (fun plays group =>
       c <- first (configs group) ;;
       Ok (plays
           ++ [VDict
                 [("name", VStr ("Install " ++ name c));
                  ("hosts", VStr (name c ++ "_servers"));
                  ("become", VBool true);
                  ("tasks",
                   VList
                     [VDict
                        [("name", VStr ("Include " ++ name c ++ " tasks"));
                         ("include_tasks",
                          VStr ("tasks/" ++ name c ++ ".yml"))]])]])%list)
    plays
  = Ok (plays ++ plays_of gs)%list.
Proof.
  intro Hall. revert plays.
  induction Hall as [| g gs Hg _ IH]; intro plays; cbn [for_each plays_of flat_map].
  - now rewrite app_nil_r.
  - unfold first_name. destruct (configs g) as [| c rest]; [congruence |].
    cbn [first bind]. rewrite IH, <- app_assoc. reflexivity.
Qed.

Lemma playbook_loop_raises (gs : list SoftwareGroup) (plays : list value) :
  Exists (fun g => configs g = []) gs ->
  for_each gs
    (fun plays group =>
       c <- first (configs group) ;;
       Ok (plays
           ++ [VDict
                 [("name", VStr ("Install " ++ name c));
                  ("hosts", VStr (name c ++ "_servers"));
                  ("become", VBool true);
                  ("tasks",
                   VList
                     [VDict
                        [("name", VStr ("Include " ++ name c ++ " tasks"));
                         ("include_tasks",
                          VStr ("tasks/" ++ name c ++ ".yml"))]])]])%list)
    plays
  = Raise IndexError.
Proof.
  revert plays. induction gs as [| g gs IH]; intros plays Hex;
    [inversion Hex |].
  cbn [for_each].
  destruct (configs g) as [| c rest] eqn:Hc; [reflexivity |].
  cbn [first bind]. apply IH.
  inversion Hex as [? ? Hnil | ? ? Hrest]; subst; [congruence | exact Hrest].
Qed.

(** Either every group has a configuration or one has none. *)
Lemma configs_dichotomy (gs : list SoftwareGroup) :
  Forall (fun g => configs g <> []) gs \/ Exists (fun g => configs g = []) gs.
Proof.
  induction gs as [| g gs [IH | IH]]; [left; constructor | |].
  - destruct (configs g) eqn:Hc.
    + right. left. exact Hc.
    + left. constructor; [congruence | exact IH].
  - right. right. exact IH.
Qed.

(** Groups that all have a configuration: inventory and playbook return. *)
Lemma inventory_and_playbook_ok (gs : list SoftwareGroup) :
  Forall (fun g => configs g <> []) gs ->
  exists inventory,
    generate_inventory gs = Ok inventory
    /\ generate_playbook gs = Ok (plays_of gs)
    /\ length (plays_of gs) = length gs.
Proof.
  intro Hall. unfold generate_inventory, generate_playbook.
  rewrite (inventory_loop _ _ Hall), (playbook_loop _ _ Hall).
  cbn [bind app]. eexists. split; [reflexivity |]. split; [reflexivity |].
  induction Hall as [| g gs Hg _ IH]; [reflexivity |].
  cbn [plays_of flat_map length]. unfold first_name.
  destruct (configs g); [congruence |].
  cbn [app length]. f_equal. exact IH.
Qed.

(** X10.  [generate_inventory] and [generate_playbook] return together and
    raise together: when every group has a configuration both return, the
    playbook with one play per group; when some group has none both raise
    [IndexError].  No group at all gives the inventory without group and
    the playbook without play. *)
Theorem inventory_and_playbook_need_configurations
    (gs : list SoftwareGroup) :
  (Forall (fun g => configs g <> []) gs ->
     exists inventory,
       generate_inventory gs = Ok inventory
       /\ generate_playbook gs = Ok (plays_of gs)
       /\ length (plays_of gs) = length gs)
  /\ (Exists (fun g => configs g = []) gs ->
      generate_inventory gs = Raise IndexError
      /\ generate_playbook gs = Raise IndexError)
  /\ (gs = [] ->
      generate_inventory gs
      = Ok (VDict [("all", VDict [("children", VDict [])])])
      /\ generate_playbook gs = Ok []).
Proof.
  split; [apply inventory_and_playbook_ok |].
  unfold generate_inventory, generate_playbook. split.
  - intro Hex.
    rewrite (inventory_loop_raises _ _ Hex), (playbook_loop_raises _ _ Hex).
    auto.
  - intros ->. auto.
Qed.

Lemma inventory_and_playbook_need_configurations_witness :
  (exists inventory,
      generate_inventory [nginx_group; docker_group] = Ok inventory
      /\ generate_playbook [nginx_group; docker_group]
         = Ok [play_for "nginx"; play_for "docker"])
  /\ generate_playbook [nginx_group; mkSoftwareGroup [] []] = Raise IndexError.
Proof.
  split.
  - destruct (proj1 (inventory_and_playbook_need_configurations
                       [nginx_group; docker_group]))
      as (inventory & Hinv & Hplay & _).
    + repeat constructor; discriminate.
    + exists inventory. auto.
  - apply (proj1 (proj2 (inventory_and_playbook_need_configurations
                           [nginx_group; mkSoftwareGroup [] []]))).
    right. left. reflexivity.
Defined.

(** The keys of the inventory are those of the groups. *)
Lemma with_group_keys (gs : list SoftwareGroup) (children : dict (dict value))
    (k : string) :
  In k (Dict.keys (fold_left with_group gs children))
  <-> In k (Dict.keys children) \/ exists g, In g gs /\ group_key g = Some k.
Proof.
  revert children. induction gs as [| g gs IH]; intro children;
    cbn [fold_left In].
  - split; [auto | intros [H | (g & [] & _)]; exact H].
  - rewrite IH. unfold with_group.
    destruct (group_key g) as [key |] eqn:Hkey.
    + rewrite keys_set_in. split.
      * intros [[Hin | ->] | (g' & Hg' & Hk)]; eauto.
      * intros [Hin | (g' & [<- | Hg'] & Hk)]; eauto.
        rewrite Hkey in Hk. injection Hk as ->. auto.
    + split.
      * intros [Hin | (g' & Hg' & Hk)]; eauto.
      * intros [Hin | (g' & [<- | Hg'] & Hk)]; eauto. congruence.
Qed.

(** The hosts of a group of the inventory made of [children]. *)
Lemma inventory_hosts_children (children : dict (dict value))
    (target : string) :
  inventory_hosts
    (VDict
       [("all",
         VDict
           [("children",
             VDict (map (fun item =>
                           (fst item, VDict [("hosts", VDict (snd item))]))
                        children))])])
    target
  = option_map VDict (Dict.get children target).
Proof.
  unfold inventory_hosts. cbn [field Dict.get String.eqb Ascii.eqb Bool.eqb].
  rewrite (get_map_values (fun hosts => VDict [("hosts", VDict hosts)])).
  assert (Hany : forall found : option (dict value),
             match option_map
                     (fun hosts => VDict [("hosts", VDict hosts)]) found
             with
             | Some members => field members "hosts"
             | None => None
             end = option_map VDict found)
    by (intros [hosts |]; reflexivity).
  apply Hany.
Qed.

Lemma in_plays_of (gs : list SoftwareGroup) (play : value) :
  In play (plays_of gs)
  <-> exists g n, In g gs /\ first_name g = Some n /\ play = play_for n.
Proof.
  unfold plays_of. rewrite in_flat_map. split.
  - intros (g & Hg & Hin). destruct (first_name g) as [n |] eqn:Hn;
      [| contradiction].
    destruct Hin as [<- | []]. eauto.
  - intros (g & n & Hg & Hn & ->). exists g. rewrite Hn. cbn. auto.
Qed.

(** X11.  When inventory and playbook are generated from the same groups,
    every play targets a group that the inventory has, and every group of
    the inventory is the target of a play. *)
Theorem plays_target_inventory_groups
    (gs : list SoftwareGroup) (inventory : value) (plays : list value) :
  generate_inventory gs = Ok inventory ->
  generate_playbook gs = Ok plays ->
  (forall play, In play plays ->
     exists target hosts,
       play_hosts play = Some target
       /\ inventory_hosts inventory target = Some (VDict hosts))
  /\ (forall target hosts,
        inventory_hosts inventory target = Some hosts ->
        exists play, In play plays /\ play_hosts play = Some target).
Proof.
  intros Hinv Hplays.
  destruct (configs_dichotomy gs) as [Hall | Hex].
  - unfold generate_inventory in Hinv. unfold generate_playbook in Hplays.
    rewrite (inventory_loop _ _ Hall) in Hinv.
    rewrite (playbook_loop _ _ Hall) in Hplays.
    cbn [bind app] in *. injection Hinv as <-. injection Hplays as <-.
    split.
    + intros play Hplay. apply in_plays_of in Hplay.
      destruct Hplay as (g & n & Hg & Hn & ->).
      exists (n ++ "_servers").
      assert (Hkey : In (n ++ "_servers")
                        (Dict.keys (fold_left with_group gs [])))
        by (apply with_group_keys; right; exists g;
            unfold group_key; rewrite Hn; auto).
      apply get_some_iff in Hkey. destruct Hkey as [hosts Hhosts].
      exists hosts. split; [reflexivity |].
      pose proof (inventory_hosts_children (fold_left with_group gs [])
                    (n ++ "_servers")) as Hfound.
      rewrite Hhosts in Hfound. exact Hfound.
    + intros target hosts Hhosts.
      pose proof (inventory_hosts_children (fold_left with_group gs [])
                    target) as Hfound.
      assert (Hsome : option_map VDict
                        (Dict.get (fold_left with_group gs []) target)
                      = Some hosts)
        by (rewrite <- Hfound; exact Hhosts).
      destruct (Dict.get (fold_left with_group gs []) target)
        as [found |] eqn:Hget; [| discriminate].
      assert (Hkey : In target (Dict.keys (fold_left with_group gs [])))
        by (apply get_some_iff; eauto).
      apply with_group_keys in Hkey. destruct Hkey as [[] | (g & Hg & Hk)].
      unfold group_key in Hk. destruct (first_name g) as [n |] eqn:Hn;
        [| discriminate].
      injection Hk as <-. exists (play_for n). split; [| reflexivity].
      apply in_plays_of. eauto.
  - unfold generate_inventory in Hinv.
    rewrite (inventory_loop_raises _ _ Hex) in Hinv. discriminate.
Qed.

Lemma plays_target_inventory_groups_witness :
  exists inventory plays,
    generate_inventory (group_software [app1; app2; app3]) = Ok inventory
    /\ generate_playbook (group_software [app1; app2; app3]) = Ok plays
    /\ forall play, In play plays ->
         exists target hosts,
           play_hosts play = Some target
           /\ inventory_hosts inventory target = Some (VDict hosts).
Proof.
  eexists _, _. split; [reflexivity |]. split; [reflexivity |].
  apply (plays_target_inventory_groups (group_software [app1; app2; app3]));
    reflexivity.
Defined.

End InventoryAndPlaybook.

Section InventoryMembers.
Import Ansible AnsibleIO Groups GroupShape Files Samples MoreSamples.

(** X24.  For every software name requested, the inventory of the groups
    has the group [<name>_servers]; its host keys are distinct and are the
    hostnames of the servers that ask for a software of that name, whatever
    their configurations, and of no other server. *)
Theorem inventory_members_are_the_requesters
    (all_servers : list Server) (n : string) :
  (exists srv sw, In srv all_servers /\ In sw (software srv) /\ name sw = n) ->
  exists inventory hosts,
    generate_inventory (group_software all_servers) = Ok inventory
    /\ inventory_hosts inventory (n ++ "_servers") = Some (VDict hosts)
    /\ NoDup (Dict.keys hosts)
    /\ (forall h,
          In h (Dict.keys hosts)
          <-> exists srv sw,
                In srv all_servers /\ hostname srv = h
                /\ In sw (software srv) /\ name sw = n).
Proof.
  intros (srv & sw & Hsrv & Hsw & Hname).
  destruct (inventory_of_grouping all_servers n)
    as (inventory & Hgen & Hhosts).
  - apply names_requested_in, in_map_iff. exists sw. split; [exact Hname |].
    apply in_map_iff. exists (srv, sw). split; [reflexivity |].
    apply in_requests. auto.
  - exists inventory. eexists. split; [exact Hgen |].
    split; [exact Hhosts |]. unfold hosts_of.
    split; [apply add_hosts_nodup; constructor |].
    intro h. rewrite add_hosts_keys. cbn [Dict.keys map In]. split.
    + intros [[] | Hin]. apply in_map_iff in Hin.
      destruct Hin as (sc & <- & Hsc). apply group_named_servers in Hsc.
      destruct Hsc as [Hreq Hn]. apply in_requests in Hreq.
      exists (server sc), (config sc). tauto.
    + intros (srv' & sw' & Hsrv' & <- & Hsw' & Hn). right.
      apply in_map_iff. exists (mkServerConfig srv' sw').
      split; [reflexivity |]. apply group_named_servers.
      split; [apply in_requests; auto | exact Hn].
Qed.

Lemma inventory_members_are_the_requesters_witness :
  exists inventory hosts,
    generate_inventory (group_software [app1; app2; app3]) = Ok inventory
    /\ inventory_hosts inventory "docker_servers" = Some (VDict hosts)
    /\ forall h, In h (Dict.keys hosts)
                 <-> exists srv sw,
                       In srv [app1; app2; app3] /\ hostname srv = h
                       /\ In sw (software srv) /\ name sw = "docker".
Proof.
  destruct (inventory_members_are_the_requesters [app1; app2; app3] "docker")
    as (inventory & hosts & Hgen & Hhosts & _ & Hkeys).
  - exists app2, docker_24. cbn. auto.
  - exists inventory, hosts. auto.
Defined.

End InventoryMembers.

Section CreateFiles.
Import Ansible AnsibleIO Groups GroupShape Files Samples MoreSamples.

(** The loop over the groups when every synthesis returns. *)
Lemma write_task_files_ok (gs : list SoftwareGroup) (log : list event) :
  Forall (fun g => configs g <> []) gs ->
  Forall (fun g => exists tasks, generate_software_tasks g = Ok tasks) gs ->
  write_task_files gs log = ((log ++ flat_map task_file gs)%list, Ok tt).
Proof.
  intros Hconfigs. revert log.
  induction Hconfigs as [| g gs Hg _ IH]; intros log Hsteps.
  - cbn. now rewrite app_nil_r.
  - inversion Hsteps as [| ? ? [tasks Htasks] Hrest]; subst.
    cbn [write_task_files flat_map]. unfold task_file at 1, first_name.
    rewrite Htasks. destruct (configs g) as [| c rest]; [congruence |].
    cbn [first]. rewrite (IH _ Hrest), <- app_assoc. reflexivity.
Qed.



(** The events of a call of [create_files] in which nothing raises. *)
Lemma create_files_ok (all_servers : list Server) (gs : list SoftwareGroup) :
  Forall (fun g => configs g <> []) gs ->
  Forall (fun g => exists tasks, generate_software_tasks g = Ok tasks) gs ->
  exists inventory,
    generate_inventory gs = Ok inventory
    /\ create_files all_servers gs
       = (([MakeDir []; MakeDir ["tasks"];
            WriteFile ["inventory.yml"] inventory;
            WriteFile ["install-software.yml"] (VList (plays_of gs))]
           ++ flat_map task_file gs ++ [Print success_message])%list,
          Ok tt).
Proof.
  intros Hconfigs Hsteps.
  destruct (inventory_and_playbook_ok gs Hconfigs)
    as (inventory & Hinv & Hplays & _).
  exists inventory. split; [exact Hinv |].
  unfold create_files. rewrite Hinv, Hplays.
  rewrite (write_task_files_ok _ _ Hconfigs Hsteps).
  cbn [app]. rewrite <- ?app_assoc. reflexivity.
Qed.

(** A group with a server whose configurations have their payload is
    synthesized without exception. *)
Lemma software_tasks_total (g : SoftwareGroup) :
  servers g <> [] ->
  Forall payload_consistent (map config (servers g)) ->
  exists tasks, generate_software_tasks g = Ok tasks.
Proof.
  intros Hsome Hall. unfold generate_software_tasks.
  assert (Hentries : Forall (fun item => payload_consistent (snd item))
                       (os_configs_of (servers g))).
  { rewrite Forall_forall in *. intros [family cfg] Hentry.
    destruct (os_configs_entry _ _ _ Hentry) as (sc & Hin & _ & <-).
    cbn [snd]. apply Hall, in_map, Hin. }
  destruct (1 <? length (os_configs_of (servers g)))%nat.
  - apply conditional_loop_total, Hentries.
  - destruct (os_configs_of (servers g)) as [| [family cfg] rest] eqn:Hoc.
    + exfalso. destruct (servers g) as [| sc scs]; [congruence |].
      assert (Hkey : In (family_of sc) (Dict.keys (os_configs_of (sc :: scs))))
        by (apply os_configs_keys; left; reflexivity).
      rewrite Hoc in Hkey. contradiction.
    + cbn [Dict.values map snd first bind].
      inversion Hentries as [| ? ? Hcfg _]; subst. cbn [snd] in Hcfg.
      destruct (basic_tasks_total cfg Hcfg) as [tasks ->]. cbn.
      eexists; reflexivity.
Qed.

(** The groups of servers whose specs have their payload can all be
    written. *)
Lemma groups_ready (all_servers : list Server) :
  Forall (fun srv => Forall payload_consistent (software srv)) all_servers ->
  Forall (fun g => configs g <> []) (group_software all_servers)
  /\ Forall (fun g => exists tasks, generate_software_tasks g = Ok tasks)
            (group_software all_servers).
Proof.
  intro Hall. rewrite group_software_groups.
  set (reqs := requests all_servers).
  split; apply Forall_forall; intros g Hg; apply in_map_iff in Hg;
    destruct Hg as (n & <- & Hn);
    destruct (group_named_first reqs n Hn) as (c & rest & Hc & Hname).
  - rewrite Hc. discriminate.
  - apply software_tasks_total.
    + assert (Hin : In c (configs (group_named n reqs)))
        by (rewrite Hc; left; reflexivity).
      unfold group_named in Hin. cbn [configs] in Hin.
      apply keep_first_in, in_map_iff in Hin.
      destruct Hin as (request & _ & Hreq).
      unfold group_named. cbn [servers].
      destruct (filter (named n) reqs); [contradiction | discriminate].
    + apply Forall_forall. intros cfg Hcfg. apply in_map_iff in Hcfg.
      destruct Hcfg as (sc & <- & Hsc).
      unfold group_named in Hsc. cbn [servers] in Hsc.
      apply in_map_iff in Hsc. destruct Hsc as ([srv sw] & <- & Hreq).
      apply filter_In in Hreq. destruct Hreq as [Hreq _].
      unfold reqs, requests in Hreq. apply in_flat_map in Hreq.
      destruct Hreq as (srv' & Hsrv & Hin). apply in_map_iff in Hin.
      destruct Hin as (sw' & Heq & Hsw). injection Heq as <- <-.
      cbn [config snd]. rewrite Forall_forall in Hall.
      specialize (Hall srv' Hsrv). rewrite Forall_forall in Hall.
      apply Hall, Hsw.
Qed.

(** Servers without software give no group. *)
Lemma group_software_nonempty (all_servers : list Server) :
  group_software all_servers <> [] ->
  exists srv, In srv all_servers /\ software srv <> [].
Proof.
  induction all_servers as [| srv rest IH]; intro Hgroups;
    [exfalso; apply Hgroups; reflexivity |].
  destruct (software srv) as [| sw sws] eqn:Hsw.
  - destruct IH as (srv' & Hin & Hsome).
    + intro Hnil. apply Hgroups. rewrite group_software_requests in *.
      unfold requests in *. cbn [flat_map]. rewrite Hsw. exact Hnil.
    + exists srv'. split; [right; exact Hin | exact Hsome].
  - exists srv. split; [left; reflexivity | congruence].
Qed.





End CreateFiles.

(** * The console of the Ansible generator *)

Section OsFamily.
Import Ansible AnsibleIO Console.

Variable lower : string -> string.

Lemma get_os_family_cases (os_type : string) :
  In (get_os_family lower os_type) os_families
  /\ (get_os_family lower os_type = "Linux"
      <-> ~ In (lower os_type) (Dict.keys os_family_map)).
Proof.
  unfold get_os_family, os_families, os_family_map.
  cbn [Dict.get Dict.keys map fst In].
  repeat match goal with
         | |- context [?k =? lower os_type] =>
             destruct (String.eqb_spec k (lower os_type)) as [<- | ?]
         end;
    cbn [get_default];
    (split; [auto 6 | split; [try discriminate | intro Hnot]]);
    try reflexivity;
    try solve [exfalso; apply Hnot; auto 10].
  intuition congruence.
Qed.

(** X14.  [get_os_family] gives one of four families, and [Linux] exactly
    for the types that, in lower case, are not in its table. *)
Theorem os_family_is_one_of_four (os_type : string) :
  In (get_os_family lower os_type) os_families
  /\ (get_os_family lower os_type = "Linux"
      <-> ~ In (lower os_type) (Dict.keys os_family_map)).
Proof. apply get_os_family_cases. Qed.

End OsFamily.

Section ConsoleFacts.
Import Ansible AnsibleIO Groups GroupShape Files Console Samples MoreSamples.

Variables strip lower : string -> string.

(** The questions on one software give a well-formed [info], or the
    console ends first. *)
Lemma read_info_outcome (software : string) (lines : list string) :
  software <> EmptyString ->
  match read_info strip lower software lines with
  | Got sw rest =>
      well_formed_info lower sw /\ name sw = software
      /\ length rest <= length lines
  | EOFError => True
  | OutOfFuel => False
  end.
Proof.
  intro Hname. destruct lines as [| v [| m lines]]; try exact I.
  cbv beta iota zeta delta [read_info and_then input_strip input answer].
  set (method := if lower (strip m) =? EmptyString
                 then "package" else lower (strip m)).
  assert (Hmethod : method <> EmptyString).
  { subst method. destruct (String.eqb_spec (lower (strip m)) EmptyString);
      [discriminate | assumption]. }
  set (version_key := if negb (strip v =? EmptyString)
                         && negb (lower (strip v) =? "latest")
                      then Some (strip v) else None).
  assert (Hversion : forall v', version_key = Some v' ->
             v' <> EmptyString /\ lower v' <> "latest").
  { subst version_key. intros v'.
    destruct (String.eqb_spec (strip v) EmptyString); cbn; [discriminate |].
    destruct (String.eqb_spec (lower (strip v)) "latest"); cbn;
      [discriminate |].
    intro H. injection H as <-. auto. }
  clearbody method version_key.
  assert (Hframe : forall repo script src path (rest : list string),
             (method = "script" -> script <> None) ->
             (method = "manual" -> path <> None /\ src <> None) ->
             (forall cr, repo = Some cr ->
                method = "package"
                /\ (exists p, package_name cr = Some p /\ p <> EmptyString)
                /\ (forall key, key_url cr = Some key -> key <> EmptyString)) ->
             (forall p, path = Some p -> p <> EmptyString) ->
             length rest <= length lines ->
             well_formed_info lower
               (mkSoftware software (Some method) version_key repo script
                           src path)
             /\ name (mkSoftware software (Some method) version_key repo
                                 script src path) = software
             /\ length rest <= S (S (length lines))).
  { intros repo script src path rest Hs Hm Hr Hp Hlen.
    split; [| split; [reflexivity | lia]].
    unfold well_formed_info, payload_consistent, method_of.
    cbn [name install_method version custom_repo script_url download_url
         install_path get_default].
    split; [exact Hname |]. split; [eauto |]. split; [auto |].
    split; [exact Hversion |]. split; [exact Hr | exact Hp]. }
  cbn [length].
  destruct (String.eqb_spec method "package") as [Hpackage | Hpackage].
  - destruct lines as [| custom lines]; [exact I |].
    destruct (lower (strip custom) =? "y").
    + destruct lines as [| repo [| key [| package lines]]]; try exact I.
      apply Hframe; try (cbn [length]; lia); try (subst method; discriminate).
      intros cr Hcr. injection Hcr as <-. cbn [package_name key_url].
      split; [exact Hpackage |]. split.
      * destruct (String.eqb_spec (strip package) EmptyString); eauto.
      * intros key' Hkey.
        destruct (String.eqb_spec (strip key) EmptyString);
          [discriminate | congruence].
    + apply Hframe; try (cbn [length]; lia); try (subst method; discriminate);
        discriminate.
  - destruct (String.eqb_spec method "script") as [Hscript | Hscript].
    + destruct lines as [| url lines]; [exact I |].
      apply Hframe; try (cbn [length]; lia); try (subst method; discriminate);
        discriminate.
    + destruct (String.eqb_spec method "manual") as [Hmanual | Hmanual].
      * destruct lines as [| src [| path lines]]; try exact I.
        apply Hframe; try (cbn [length]; lia);
          try (subst method; discriminate); try discriminate.
        -- intros _. split; discriminate.
        -- intros p Hp. injection Hp as <-.
           destruct (String.eqb_spec (strip path) EmptyString);
             [discriminate | assumption].
      * apply Hframe; try (cbn [length]; lia); try contradiction;
          discriminate.
Qed.

(** The loop over the software of a server: with a pass more than there
    are lines it ends, and what it collects is well formed. *)
Lemma software_loop_outcome (fuel : nat) (collected : list Software)
    (lines : list string) :
  length lines < fuel ->
  Forall (well_formed_info lower) collected ->
  match software_loop strip lower fuel collected lines with
  | Got sws rest =>
      Forall (well_formed_info lower) sws /\ length rest < S (length lines)
  | EOFError => True
  | OutOfFuel => False
  end.
Proof.
  revert collected lines.
  induction fuel as [| fuel IH]; intros collected lines Hfuel Hacc; [lia |].
  cbn [software_loop].
  cbv beta iota zeta delta [and_then input_strip input answer].
  destruct lines as [| line lines]; [exact I |].
  cbn [length] in *.
  destruct (String.eqb_spec (strip line) EmptyString) as [Hend | Hname].
  - split; [exact Hacc | lia].
  - pose proof (read_info_outcome (strip line) lines Hname) as Hinfo.
    destruct (read_info strip lower (strip line) lines) as [info rest | |];
      [| exact I | contradiction].
    destruct Hinfo as (Hwf & _ & Hlen).
    specialize (IH (collected ++ [info])%list rest).
    destruct (software_loop strip lower fuel (collected ++ [info]) rest)
      as [sws rest' | |].
    + destruct IH as [Hall Hrest']; [lia | | split; [exact Hall | lia]].
      apply Forall_app. split; [exact Hacc | constructor; [exact Hwf | constructor]].
    + exact I.
    + apply IH; [lia |].
      apply Forall_app. split; [exact Hacc | constructor; [exact Hwf | constructor]].
Qed.

(** The loop over the servers, likewise. *)
Lemma server_loop_outcome (fuel : nat) (bucket : string)
    (servers : list Server) (lines : list string) :
  length lines < fuel ->
  Forall (well_formed_server lower bucket) servers ->
  match server_loop strip lower fuel bucket servers lines with
  | Got all_servers rest =>
      Forall (well_formed_server lower bucket) all_servers
  | EOFError => True
  | OutOfFuel => False
  end.
Proof.
  revert servers lines.
  induction fuel as [| fuel IH]; intros servers lines Hfuel Hacc; [lia |].
  cbn [server_loop].
  cbv beta iota zeta delta [and_then input_strip input answer].
  destruct lines as [| host lines]; [exact I |].
  cbn [length] in *.
  destruct (String.eqb_spec (strip host) EmptyString) as [Hend | Hhost];
    [exact Hacc |].
  destruct lines as [| instance [| region [| os lines]]]; try exact I.
  cbn [length] in *.
  pose proof (software_loop_outcome fuel [] lines) as Hsoftware.
  destruct (software_loop strip lower fuel [] lines) as [sws rest | |];
    [| exact I | apply Hsoftware; [lia | constructor]].
  destruct Hsoftware as [Hsws Hrest]; [lia | constructor |].
  destruct rest as [| another rest]; [exact I |].
  cbn [length] in *.
  assert (Hnew : Forall (well_formed_server lower bucket)
                   (servers
                    ++ [mkServer (strip host) (strip instance) (strip region)
                                 (lower (strip os))
                                 (get_os_family lower (lower (strip os)))
                                 bucket sws])%list).
  { apply Forall_app. split; [exact Hacc |].
    constructor; [| constructor].
    split; [exact Hhost |]. split; [reflexivity |]. split; [reflexivity |].
    exact Hsws. }
  destruct (lower (strip another) =? "y"); cbn [negb].
  - apply IH; [lia | exact Hnew].
  - exact Hnew.
Qed.

(** What [get_user_input] comes back with. *)
Lemma get_user_input_outcome (lines : list string) :
  match get_user_input strip lower lines with
  | Got None rest =>
      exists bucket, lines = bucket :: rest /\ strip bucket = EmptyString
  | Got (Some (servers, groups)) rest =>
      groups = group_software servers
      /\ exists bucket more,
          lines = bucket :: more /\ strip bucket <> EmptyString
          /\ Forall (well_formed_server lower (strip bucket)) servers
  | EOFError => True
  | OutOfFuel => False
  end.
Proof.
  unfold get_user_input.
  cbv beta iota zeta delta [and_then input_strip input answer].
  destruct lines as [| bucket lines]; [exact I |].
  destruct (String.eqb_spec (strip bucket) EmptyString) as [Hnone | Hbucket];
    [eauto |].
  pose proof (server_loop_outcome (S (length (bucket :: lines)))
                (strip bucket) [] lines) as Hloop.
  destruct (server_loop strip lower (S (length (bucket :: lines)))
              (strip bucket) [] lines) as [servers rest | |].
  - split; [reflexivity |]. exists bucket, lines.
    split; [reflexivity |]. split; [exact Hbucket |].
    apply Hloop; [cbn [length]; lia | constructor].
  - exact I.
  - apply Hloop; [cbn [length]; lia | constructor].
Qed.

(** X15.  What [get_user_input] returns is well formed: the groups are the
    grouping of the servers; every server has a hostname, the bucket of the
    run, which is not empty, and the OS family of its OS type, one of the
    four; every software of a server has a name, a method, the payload of
    its method, no empty and no [latest] version, no empty key URL, package
    name or install path. *)
Theorem console_input_is_well_formed
    (lines rest : list string) (servers : list Server)
    (groups : list SoftwareGroup) :
  get_user_input strip lower lines = Got (Some (servers, groups)) rest ->
  groups = group_software servers
  /\ exists bucket,
      bucket <> EmptyString
      /\ Forall (well_formed_server lower bucket) servers
      /\ Forall (fun srv => In (os_family srv) os_families) servers.
Proof.
  intro Hgot. pose proof (get_user_input_outcome lines) as Hout.
  rewrite Hgot in Hout.
  destruct Hout as (Hgroups & bucket & more & _ & Hbucket & Hservers).
  split; [exact Hgroups |]. exists (strip bucket).
  split; [exact Hbucket |]. split; [exact Hservers |].
  apply (Forall_impl _ (P := well_formed_server lower (strip bucket)));
    [| exact Hservers].
  intros srv (_ & _ & -> & _). apply get_os_family_cases.
Qed.

(** More passes than lines change nothing. *)
Lemma software_loop_fuel (fuel fuel' : nat) (collected : list Software)
    (lines : list string) :
  length lines < fuel -> fuel <= fuel' ->
  software_loop strip lower fuel' collected lines
  = software_loop strip lower fuel collected lines.
Proof.
  revert fuel' collected lines.
  induction fuel as [| fuel IH]; intros fuel' collected lines Hfuel Hmore;
    [lia |].
  destruct fuel' as [| fuel']; [lia |].
  cbn [software_loop].
  cbv beta iota zeta delta [and_then input_strip input answer].
  destruct lines as [| line lines]; [reflexivity |].
  cbn [length] in *.
  destruct (String.eqb_spec (strip line) EmptyString) as [Hend | Hname];
    [reflexivity |].
  pose proof (read_info_outcome (strip line) lines Hname) as Hinfo.
  destruct (read_info strip lower (strip line) lines) as [info rest | |];
    [| reflexivity | contradiction].
  apply IH; lia.
Qed.

Lemma server_loop_fuel (fuel fuel' : nat) (bucket : string)
    (servers : list Server) (lines : list string) :
  length lines < fuel -> fuel <= fuel' ->
  server_loop strip lower fuel' bucket servers lines
  = server_loop strip lower fuel bucket servers lines.
Proof.
  revert fuel' servers lines.
  induction fuel as [| fuel IH]; intros fuel' servers lines Hfuel Hmore;
    [lia |].
  destruct fuel' as [| fuel']; [lia |].
  cbn [server_loop].
  cbv beta iota zeta delta [and_then input_strip input answer].
  destruct lines as [| host lines]; [reflexivity |].
  cbn [length] in *.
  destruct (strip host =? EmptyString); [reflexivity |].
  destruct lines as [| instance [| region [| os lines]]]; try reflexivity.
  cbn [length] in *.
  rewrite (software_loop_fuel fuel fuel') by lia.
  pose proof (software_loop_outcome fuel [] lines) as Hsoftware.
  destruct (software_loop strip lower fuel [] lines) as [sws rest | |];
    try reflexivity.
  destruct Hsoftware as [_ Hrest]; [lia | constructor |].
  destruct rest as [| another rest]; [reflexivity |].
  cbn [length] in *.
  destruct (lower (strip another) =? "y"); cbn [negb]; [| reflexivity].
  apply IH; lia.
Qed.

Lemma server_loop_ends (fuel : nat) (bucket : string)
    (servers : list Server) (lines : list string) :
  length lines < fuel ->
  server_loop strip lower fuel bucket servers lines <> OutOfFuel.
Proof.
  revert servers lines.
  induction fuel as [| fuel IH]; intros servers lines Hfuel; [lia |].
  cbn [server_loop].
  cbv beta iota zeta delta [and_then input_strip input answer].
  destruct lines as [| host lines]; [discriminate |].
  cbn [length] in *.
  destruct (strip host =? EmptyString); [discriminate |].
  destruct lines as [| instance [| region [| os lines]]]; try discriminate.
  cbn [length] in *.
  pose proof (software_loop_outcome fuel [] lines) as Hsoftware.
  destruct (software_loop strip lower fuel [] lines) as [sws rest | |];
    [| discriminate | exfalso; apply Hsoftware; [lia | constructor]].
  destruct Hsoftware as [_ Hrest]; [lia | constructor |].
  destruct rest as [| another rest]; [discriminate |].
  cbn [length] in *.
  destruct (lower (strip another) =? "y"); cbn [negb]; [| discriminate].
  apply IH. lia.
Qed.

(** X16.  On every finite input the loops of [get_user_input] end, with a
    result or with the [EOFError] of the console: the bound of the model on
    the loop passes is never hit, by [get_user_input], by [main], or by the
    server loop with any bound above the number of lines, and a higher
    bound gives the same outcome. *)
Theorem console_loops_end (lines : list string) :
  get_user_input strip lower lines <> OutOfFuel
  /\ main strip lower lines <> None
  /\ (forall fuel bucket servers,
        length lines < fuel ->
        server_loop strip lower fuel bucket servers lines <> OutOfFuel
        /\ server_loop strip lower fuel bucket servers lines
           = server_loop strip lower (S (length lines)) bucket servers lines).
Proof.
  pose proof (get_user_input_outcome lines) as Hout.
  split; [| split].
  - intro Hfuel. rewrite Hfuel in Hout. exact Hout.
  - unfold main.
    destruct (get_user_input strip lower lines)
      as [[[servers groups] |] rest | |]; try discriminate; [| contradiction].
    destruct servers, groups; try discriminate;
      destruct (create_files _ _) as [log [| e]]; discriminate.
  - intros fuel bucket servers Hfuel.
    split; [apply server_loop_ends, Hfuel |].
    apply server_loop_fuel; lia.
Qed.

Lemma well_formed_servers_payload (bucket : string) (servers : list Server) :
  Forall (well_formed_server lower bucket) servers ->
  Forall (fun srv => Forall payload_consistent (software srv)) servers.
Proof.
  apply Forall_impl. intros srv (_ & _ & _ & Hsoftware).
  apply (Forall_impl _ (P := well_formed_info lower)); [| exact Hsoftware].
  intros sw (_ & _ & Hpayload & _). exact Hpayload.
Qed.

(** The three ways a run of [main] goes. *)
Lemma main_outcome (lines : list string) (log : list event) :
  main strip lower lines = Some log ->
  log = [PrintError EndOfInput]
  \/ (log = nothing_to_generate
      /\ forall servers rest srv,
           get_user_input strip lower lines
           = Got (Some (servers, group_software servers)) rest ->
           In srv servers -> software srv = [])
  \/ exists servers rest inventory srv,
       get_user_input strip lower lines
       = Got (Some (servers, group_software servers)) rest
       /\ In srv servers /\ software srv <> []
       /\ generate_inventory (group_software servers) = Ok inventory
       /\ log
          = ([MakeDir []; MakeDir ["tasks"];
              WriteFile ["inventory.yml"] inventory;
              WriteFile ["install-software.yml"]
                        (VList (plays_of (group_software servers)))]
             ++ flat_map task_file (group_software servers)
             ++ [Print success_message])%list.
Proof.
  unfold main. pose proof (get_user_input_outcome lines) as Hout.
  destruct (get_user_input strip lower lines)
    as [[[servers groups] |] rest | |]; [| | | contradiction].
  - destruct Hout as (-> & bucket & more & _ & _ & Hservers).
    destruct servers as [| srv servers].
    + intro H. injection H as <-. right. left. split; [reflexivity |].
      intros servers' rest' srv' Heq. injection Heq as <- _. contradiction.
    + destruct (group_software (srv :: servers)) as [| g gs] eqn:Hgroups.
      * intro H. injection H as <-. right. left. split; [reflexivity |].
        intros servers' rest' srv' Heq Hin. injection Heq as <- _.
        destruct (software srv') as [| sw sws] eqn:Hsw; [reflexivity |].
        exfalso.
        assert (Hreq : In (srv', sw) (requests (srv :: servers)))
          by (apply in_requests; rewrite Hsw; split;
              [exact Hin | left; reflexivity]).
        rewrite group_software_groups in Hgroups.
        apply map_eq_nil in Hgroups.
        assert (Hname : In (name sw) (names_requested (requests (srv :: servers)))).
        { apply names_requested_in, in_map_iff. exists sw.
          split; [reflexivity |]. apply in_map_iff. exists (srv', sw). auto. }
        rewrite Hgroups in Hname. contradiction.
      * rewrite <- Hgroups.
        destruct (groups_ready (srv :: servers)
                    (well_formed_servers_payload _ _ Hservers))
          as [Hconfigs Hsteps].
        destruct (create_files_ok (srv :: servers) _ Hconfigs Hsteps)
          as (inventory & Hinv & Hrun).
        rewrite Hrun. intro H. injection H as <-. right. right.
        destruct (group_software_nonempty (srv :: servers))
          as (srv' & Hin & Hsome); [rewrite Hgroups; discriminate |].
        exists (srv :: servers), rest, inventory, srv'. auto.
  - intro H. injection H as <-. right. left. split; [reflexivity |].
    intros servers rest' srv Heq. discriminate Heq.
  - intro H. injection H as <-. left. reflexivity.
Qed.


(** X18.  A run of [main] makes a directory or writes a file exactly when
    [get_user_input] returns servers of which one asked for a software:
    with no bucket, no server, or servers without software, the disk is
    left as it is. *)
Theorem main_touches_disk_iff_requested
    (lines : list string) (log : list event) :
  main strip lower lines = Some log ->
  (Exists touches_disk log
   <-> exists servers rest srv,
        get_user_input strip lower lines
        = Got (Some (servers, group_software servers)) rest
        /\ In srv servers /\ software srv <> []).
Proof.
  intro Hrun.
  destruct (main_outcome lines log Hrun)
    as [-> | [[-> Hnone] | (servers & rest & inventory & srv & Hgot & Hin
                             & Hsome & _ & ->)]].
  - split.
    + intro Hex. inversion Hex as [? ? H | ? ? H]; [contradiction H |].
      inversion H.
    + intros (servers & rest & srv & Hgot & _).
      unfold main in Hrun. rewrite Hgot in Hrun.
      pose proof (get_user_input_outcome lines) as Hout.
      rewrite Hgot in Hout.
      destruct Hout as (_ & bucket & more & _ & _ & Hservers).
      destruct servers as [| s servers];
        [discriminate Hrun |].
      destruct (group_software (s :: servers)) as [| g gs] eqn:Hgroups;
        [discriminate Hrun |].
      rewrite <- Hgroups in Hrun.
      destruct (groups_ready (s :: servers)
                  (well_formed_servers_payload _ _ Hservers))
        as [Hconfigs Hsteps].
      destruct (create_files_ok (s :: servers) _ Hconfigs Hsteps)
        as (inventory & _ & Hfiles).
      rewrite Hfiles in Hrun. discriminate Hrun.
  - split.
    + intro Hex. inversion Hex as [? ? H | ? ? H]; [contradiction H |].
      inversion H.
    + intros (servers & rest & srv & Hgot & Hin & Hsome).
      exfalso. apply Hsome. apply (Hnone servers rest srv Hgot Hin).
  - split.
    + intros _. exists servers, rest, srv. auto.
    + intros _. left. exact I.
Qed.

End ConsoleFacts.

Section ConsoleWitnesses.
Import Ansible AnsibleIO Groups GroupShape Files Console Samples MoreSamples.

(** The run of the sample session. *)
Lemma nginx_session_run :
  exists log, main as_typed as_typed nginx_session = Some log.
Proof. eexists. vm_compute. reflexivity. Qed.

Lemma os_family_is_one_of_four_witness :
  get_os_family as_typed "solaris" = "Linux".
Proof.
  apply (os_family_is_one_of_four as_typed "solaris").
  cbn. intuition discriminate.
Defined.

Lemma console_input_is_well_formed_witness :
  exists servers bucket,
    Forall (well_formed_server as_typed bucket) servers
    /\ servers <> [].
Proof.
  destruct (get_user_input as_typed as_typed nginx_session)
    as [[[servers groups] |] rest | |] eqn:Hgot; try discriminate Hgot.
  destruct (console_input_is_well_formed as_typed as_typed _ _ _ _ Hgot)
    as (_ & bucket & _ & Hservers & _).
  exists servers, bucket. split; [exact Hservers |].
  intros ->. vm_compute in Hgot. discriminate Hgot.
Defined.

Lemma console_loops_end_witness :
  server_loop as_typed as_typed 100 "logs" [] (tl nginx_session)
  = server_loop as_typed as_typed (S (length (tl nginx_session))) "logs" []
                (tl nginx_session).
Proof.
  apply (console_loops_end as_typed as_typed (tl nginx_session)).
  cbn. lia.
Defined.


Lemma main_touches_disk_iff_requested_witness :
  exists log,
    main as_typed as_typed idle_session = Some log
    /\ ~ Exists touches_disk log.
Proof.
  destruct (main as_typed as_typed idle_session) as [log |] eqn:Hrun;
    [| vm_compute in Hrun; discriminate Hrun].
  exists log. split; [reflexivity |]. intro Hex.
  apply (main_touches_disk_iff_requested as_typed as_typed idle_session log
           Hrun) in Hex.
  destruct Hex as (servers & rest & srv & Hgot & Hin & Hsome).
  vm_compute in Hgot. injection Hgot as <- _.
  destruct Hin as [<- | []]. apply Hsome. reflexivity.
Defined.

End ConsoleWitnesses.

(** * More on the IAM generator *)

Section IamPlaybook.
Import Iam Runs Vault IamSamples MoreIamSamples.

Lemma append_assoc (a b c : string) : (a ++ b) ++ c = a ++ (b ++ c).
Proof. induction a as [| ch a IH]; cbn; [reflexivity | now rewrite IH]. Qed.



End IamPlaybook.

Section IamVault.
Import Iam Runs Vault IamSamples MoreIamSamples.

(** Goes through the events of an explicit list. *)
Ltac in_cases H :=
  cbn [In app] in H;
  repeat (destruct H as [H | H]; [try discriminate H |]);
  try contradiction.

Lemma get_set_other {V : Type} (d : dict V) (k k' : string) (v : V) :
  k <> k' -> Dict.get (Dict.set d k v) k' = Dict.get d k'.
Proof.
  intro Hne. apply String.eqb_neq in Hne.
  induction d as [| [k0 v0] d IH]; cbn.
  - now rewrite Hne.
  - destruct (String.eqb_spec k0 k) as [-> | Hne0]; cbn.
    + now rewrite Hne.
    + now rewrite IH.
Qed.

Lemma vault_key_inj (a b : User) :
  vault_key a = vault_key b -> username a = username b.
Proof.
  unfold vault_key. intro H. cbn in H. injection H as H.
  apply append_inv_tail in H. exact H.
Qed.

(** The loop of [create_vault_file] over the users. *)
Lemma vault_loop_keys (users : list User) (acc : dict value) (k : string) :
  In k (Dict.keys
          (fold_left
             (fun vault_data user =>
                Dict.set vault_data ("vault_" ++ username user ++ "_password")
                         (VStr (password user)))
             users acc))
  <-> In k (Dict.keys acc) \/ exists u, In u users /\ k = vault_key u.
Proof.
  revert acc. induction users as [| u users IH]; intro acc; cbn [fold_left In].
  - split; [auto | intros [H | (u & [] & _)]; exact H].
  - rewrite IH, keys_set_in. fold (vault_key u). split.
    + intros [[Hin | ->] | (u' & Hu' & ->)]; eauto.
    + intros [Hin | (u' & [<- | Hu'] & ->)]; eauto.
Qed.

Lemma vault_loop_keeps (users : list User) (acc : dict value) (k : string) :
  (forall a, In a users -> vault_key a <> k) ->
  Dict.get
    (fold_left
       (fun vault_data user =>
          Dict.set vault_data ("vault_" ++ username user ++ "_password")
                   (VStr (password user)))
       users acc) k
  = Dict.get acc k.
Proof.
  revert acc. induction users as [| u users IH]; intros acc Hother;
    [reflexivity |].
  cbn [fold_left]. rewrite IH.
  - apply get_set_other. apply (Hother u). left. reflexivity.
  - intros a Ha. apply Hother. right. exact Ha.
Qed.

Lemma vault_loop_distinct (users : list User) (acc : dict value) :
  NoDup (Dict.keys acc ++ map vault_key users)%list ->
  fold_left
    (fun vault_data user =>
       Dict.set vault_data ("vault_" ++ username user ++ "_password")
                (VStr (password user)))
    users acc
  = (acc ++ map (fun u => (vault_key u, VStr (password u))) users)%list.
Proof.
  revert acc. induction users as [| u users IH]; intros acc Hnodup.
  - cbn. now rewrite app_nil_r.
  - cbn [fold_left map]. fold (vault_key u). rewrite set_new.
    + rewrite IH; [now rewrite <- app_assoc |].
      unfold Dict.keys in *. rewrite map_app. cbn [map fst].
      rewrite <- app_assoc. exact Hnodup.
    + apply NoDup_remove_2 in Hnodup. intro Hin.
      apply Hnodup, in_or_app. left. exact Hin.
Qed.

Lemma nodup_vault_keys (users : list User) :
  NoDup (map username users) -> NoDup (map vault_key users).
Proof.
  induction users as [| u users IH]; cbn [map]; intro Hnodup;
    [constructor |].
  inversion Hnodup as [| ? ? Hnot Hrest]; subst.
  constructor; [| apply IH, Hrest].
  intro Hin. apply in_map_iff in Hin. destruct Hin as (u' & Hkey & Hu').
  apply Hnot. apply vault_key_inj in Hkey. rewrite <- Hkey.
  apply in_map, Hu'.
Qed.

(** The first event of [create_vault_file] is the write of the temporary
    file. *)
Lemma vault_file_first (users : list User) (pw : string) (host : Host) :
  exists rest,
    snd (create_vault_file users pw host)
    = WriteFile "temp_vault.yml"
        (VDict
           (fold_left
              (fun vault_data user =>
                 Dict.set vault_data
                          ("vault_" ++ username user ++ "_password")
                          (VStr (password user)))
              users []))
      :: rest.
Proof.
  unfold create_vault_file.
  destruct (ansible_vault host) as [| returncode stderr]; cbn [snd app];
    [eauto |].
  destruct (negb (returncode =? 0)%Z); cbn [snd app]; [eauto |].
  destruct (rm_found host); cbn [snd app]; eauto.
Qed.

(** X20.  The temporary vault file is the first thing [create_vault_file]
    writes.  Its keys are the vault variables of the users, one per user
    name; every password argument of a task of the playbook is the
    reference to such a key; a user name entered twice keeps the password
    entered last; and with distinct user names the file has one entry per
    user, in the order of the users, with the password of that user. *)
Theorem vault_defines_playbook_variables
    (users : list User) (pw : string) (host : Host) :
  exists data rest,
    snd (create_vault_file users pw host)
    = WriteFile "temp_vault.yml" (VDict data) :: rest
    /\ (forall k, In k (Dict.keys data)
                  <-> exists u, In u users /\ k = vault_key u)
    /\ (forall u task arg,
          In u users -> In task (user_tasks u) ->
          password_argument task = Some arg ->
          arg = VStr ("{{ " ++ vault_key u ++ " }}")
          /\ In (vault_key u) (Dict.keys data))
    /\ (forall before u after,
          users = (before ++ u :: after)%list ->
          (forall a, In a after -> username a <> username u) ->
          Dict.get data (vault_key u) = Some (VStr (password u)))
    /\ (NoDup (map username users) ->
        data = map (fun u => (vault_key u, VStr (password u))) users).
Proof.
  destruct (vault_file_first users pw host) as [rest Hfirst].
  eexists _, rest. split; [exact Hfirst |].
  assert (Hkeys : forall k,
             In k (Dict.keys
                     (fold_left
                        (fun vault_data user =>
                           Dict.set vault_data
                                    ("vault_" ++ username user ++ "_password")
                                    (VStr (password user)))
                        users []))
             <-> exists u, In u users /\ k = vault_key u).
  { intro k. rewrite vault_loop_keys. cbn [Dict.keys map In]. tauto. }
  split; [exact Hkeys |]. split; [| split].
  - intros u task arg Hu Htask Harg. split.
    + unfold user_tasks in Htask. cbn [In] in Htask.
      destruct Htask as [<- | [<- | [<- | [<- | []]]]];
        cbn in Harg; try discriminate Harg;
        injection Harg as <-; unfold vault_key;
        cbn; rewrite !append_assoc; reflexivity.
    + apply Hkeys. eauto.
  - intros before u after -> Hlast.
    rewrite fold_left_app. cbn [fold_left]. rewrite vault_loop_keeps.
    + apply get_set_same.
    + intros a Ha Hkey. apply vault_key_inj in Hkey.
      exact (Hlast a Ha Hkey).
  - intro Hnodup. rewrite vault_loop_distinct; [reflexivity |].
    cbn [Dict.keys map app]. apply nodup_vault_keys, Hnodup.
Qed.

Lemma vault_defines_playbook_variables_witness :
  exists data rest,
    snd (create_vault_file [alice; bob; bob_again] "vault-pass" host_ok)
    = WriteFile "temp_vault.yml" (VDict data) :: rest
    /\ Dict.get data (vault_key bob) = Some (VStr "Another-Pass-3").
Proof.
  destruct (vault_defines_playbook_variables [alice; bob; bob_again]
              "vault-pass" host_ok)
    as (data & rest & Hfirst & _ & _ & Hlast & _).
  exists data, rest. split; [exact Hfirst |].
  apply (Hlast [alice; bob] bob_again []); [reflexivity |].
  intros a [].
Defined.

(** X21.  [create_vault_file] returns [True] exactly when [ansible-vault]
    exits with code 0 and [rm] is found.  The temporary file with the
    passwords in clear is removed exactly in that case: on every failure
    (tool missing, non-zero exit, [rm] missing) it is written and stays.
    The tool is run at most once, and only when it is installed. *)
Theorem temp_vault_removed_only_on_success
    (users : list User) (pw : string) (host : Host) :
  let created := fst (create_vault_file users pw host) in
  let events := snd (create_vault_file users pw host) in
  (created = true
   <-> (exists stderr, ansible_vault host = Exited 0 stderr)
       /\ rm_found host = true)
  /\ (In (Remove "temp_vault.yml") events <-> created = true)
  /\ (forall path, In (Remove path) events -> path = "temp_vault.yml")
  /\ (forall src dst passphrase returncode,
        In (Encrypt src dst passphrase returncode) events ->
        src = "temp_vault.yml" /\ dst = "vault.yml" /\ passphrase = pw
        /\ exists stderr, ansible_vault host = Exited returncode stderr)
  /\ (ansible_vault host = ToolNotFound ->
      forall src dst passphrase returncode,
        ~ In (Encrypt src dst passphrase returncode) events).
Proof.
  unfold create_vault_file.
  destruct host as [[| returncode stderr] rm]; cbn [ansible_vault rm_found];
    [| destruct (Z.eqb_spec returncode 0) as [-> | Hcode]; cbn [negb];
       [destruct rm |]];
    cbn [fst snd app];
    (split; [| split; [| split; [| split]]]).
  (* the tool is missing *)
  - split; [discriminate | intros [[stderr H] _]; discriminate H].
  - split; [intro H; in_cases H | discriminate].
  - intros path H. in_cases H.
  - intros src dst passphrase rc H. in_cases H.
  - intros _ src dst passphrase rc H. in_cases H.
  (* exit code 0, [rm] found *)
  - split; eauto.
  - split; [reflexivity | intros _; cbn; auto].
  - intros path H. in_cases H. injection H as <-. reflexivity.
  - intros src dst passphrase rc H. in_cases H.
    injection H as <- <- <- <-. eauto.
  - discriminate.
  (* exit code 0, [rm] missing *)
  - split; [discriminate | intros [_ H]; discriminate H].
  - split; [intro H; in_cases H | discriminate].
  - intros path H. in_cases H.
  - intros src dst passphrase rc H. in_cases H.
    injection H as <- <- <- <-. eauto.
  - discriminate.
  (* another exit code *)
  - split; [discriminate |].
    intros [[stderr' H] _]. injection H as H _. contradiction.
  - split; [intro H; in_cases H | discriminate].
  - intros path H. in_cases H.
  - intros src dst passphrase rc H. in_cases H.
    injection H as <- <- <- <-. eauto.
  - discriminate.
Qed.

Lemma temp_vault_removed_only_on_success_witness :
  fst (create_vault_file [alice] "vault-pass" host_without_rm) = false
  /\ ~ In (Remove "temp_vault.yml")
         (snd (create_vault_file [alice] "vault-pass" host_without_rm)).
Proof.
  destruct (temp_vault_removed_only_on_success [alice] "vault-pass"
              host_without_rm) as (Hcreated & Hremoved & _).
  assert (Hnot : fst (create_vault_file [alice] "vault-pass" host_without_rm)
                 <> true).
  { intro H. apply Hcreated in H. destruct H as [_ H]. discriminate H. }
  split.
  - destruct (fst (create_vault_file [alice] "vault-pass" host_without_rm));
      [contradiction Hnot; reflexivity | reflexivity].
  - intro H. apply Hnot, Hremoved, H.
Defined.

(** X22.  [main] writes the playbook exactly when there is a user, the
    vault password is not empty, [ansible-vault] exits with code 0 and [rm]
    is found.  When [ansible-vault] has succeeded and [rm] is missing, the
    run has encrypted the vault and still ends without the playbook. *)
Theorem playbook_written_iff (users : list User) (pw : string) (host : Host) :
  ((exists doc, In (WriteFile entrypoint doc) (main users pw host))
   <-> users <> [] /\ pw <> EmptyString
       /\ (exists stderr, ansible_vault host = Exited 0 stderr)
       /\ rm_found host = true)
  /\ (users <> [] -> pw <> EmptyString ->
      (exists stderr, ansible_vault host = Exited 0 stderr) ->
      rm_found host = false ->
      In (store_created pw) (main users pw host)
      /\ forall doc, ~ In (WriteFile entrypoint doc) (main users pw host)).
Proof.
  split.
  - split.
    + intros [doc Hin].
      destruct (entrypoint_written_inv _ _ _ _ Hin)
        as (u & rest & stderr & -> & Hpw & Hvault & Hrm).
      split; [discriminate |]. eauto.
    + intros (Husers & Hpw & [stderr Hvault] & Hrm).
      destruct users as [| u rest]; [congruence |].
      destruct (main_success u rest pw stderr host Hpw Hvault Hrm)
        as [vault_data ->].
      eexists. cbn. auto 10.
  - intros Husers Hpw [stderr Hvault] Hrm. split.
    + unfold main, create_vault_file.
      destruct users as [| u rest]; [congruence |].
      destruct (String.eqb_spec pw EmptyString); [contradiction |].
      rewrite Hvault, Hrm. cbn. unfold store_created. auto 10.
    + intros doc Hin.
      destruct (entrypoint_written_inv _ _ _ _ Hin)
        as (_ & _ & _ & _ & _ & _ & Hrm').
      congruence.
Qed.

Lemma playbook_written_iff_witness :
  In (store_created "vault-pass") (main [alice] "vault-pass" host_without_rm)
  /\ forall doc,
      ~ In (WriteFile entrypoint doc) (main [alice] "vault-pass" host_without_rm).
Proof.
  apply (playbook_written_iff [alice] "vault-pass" host_without_rm).
  - discriminate.
  - discriminate.
  - exists EmptyString. reflexivity.
  - reflexivity.
Defined.

(** X23.  Without a user, or with an empty vault password, [main] only
    prints: it writes no file, not even the temporary one, and runs no
    tool. *)
Theorem nothing_done_without_users_or_password
    (users : list User) (pw : string) (host : Host) :
  users = [] \/ pw = EmptyString ->
  Forall is_print (main users pw host)
  /\ (users = [] ->
      last (main users pw host) (Print EmptyString)
      = Print "No users to create. Exiting.")
  /\ (users <> [] ->
      last (main users pw host) (Print EmptyString)
      = Print "Vault password cannot be empty!").
Proof.
  intros [-> | ->].
  - cbn. repeat split; try (repeat constructor). intro H. congruence.
  - destruct users as [| u rest]; cbn.
    + repeat split; try (repeat constructor). intro H. congruence.
    + repeat split; try (repeat constructor). intro H. discriminate H.
Qed.

Lemma nothing_done_without_users_or_password_witness :
  Forall is_print (main [alice; bob] EmptyString host_ok).
Proof.
  apply (nothing_done_without_users_or_password [alice; bob] EmptyString
           host_ok).
  right. reflexivity.
Defined.

End IamVault.
